(** * Course catalog: a binary search tree and a hash map filled from a CSV file

    Shallow embedding of [assets/Artifacts/Artifact_Two/main.cpp], which holds
    two variants of the advising program:

    - the original one (module [V1]): a [CourseBST] with [addNode], [inOrder]
      and [search]; [LoadCourses] removes at most one space on each side of a
      prerequisite token;
    - the enhanced one (module [V2]): a [CourseBST] with [insertNode] and
      [inOrderTraversal], an [unordered_map] from course number to course for
      lookups, and a validation pass over the map at the end of
      [LoadCourses].

    What both variants share (the [Course] record, the [Node] of the tree,
    and the [std::getline] calls on a stream) is defined first. *)

From Stdlib Require Import Ascii String.
From stdpp Require Import gmap strings list sorting.


(** ** Records *)

(** [struct Course]. *)
Record Course := mkCourse {
  courseNumber : string;
  courseTitle : string;
  prerequisites : list string
}.

(** A default-constructed [Course]: two empty strings and an empty vector. *)
Definition Course_default : Course := mkCourse EmptyString EmptyString [].

(** [struct Node]: a course with two owned children; [nullptr] is the null
    pointer. *)
Inductive Node :=
| nullptr
| node (course : Course) (left right : Node).

(** What the program writes to [cout], one event per message. *)
Inductive Output :=
| UnableToOpen (filename : string)
| CourseLine (number title : string)
| PrerequisitesNone
| PrerequisitesList (prereqs : list string)
| CourseNotFound
| Warning (owner missing : string).

(** The line that both variants print for a course in a listing:
    the number, a comma and a space, the title. *)
Definition course_line (c : Course) : Output :=
  CourseLine (courseNumber c) (courseTitle c).

(** The order in which [operator<] on course numbers leaves two courses. *)
Definition number_le (a b : Course) : Prop :=
  String.leb (courseNumber a) (courseNumber b) = true.

(** The courses of a list that carry the number [X], in the order of the
    list. *)
Definition with_number (X : string) (cs : list Course) : list Course :=
  filter (λ c, courseNumber c = X) cs.

(** ** Streams and [std::getline] *)

(** An input stream over a string: the characters not yet read, and the two
    state bits that [getline] can set. *)
Record istream := mkStream {
  buf : string;
  eofbit : bool;
  failbit : bool
}.

(** [stringstream ss(line)], and an [ifstream] that was opened on a file
    with these contents. *)
Definition stream_of (s : string) : istream := mkStream s false false.

Definition good (strm : istream) : bool := negb (eofbit strm) && negb (failbit strm).

(** The characters up to the first [delim], and what follows it; [None] when
    the input ends before a [delim] is met. *)
Fixpoint extract (delim : ascii) (s : string) : string * option string :=
  match s with
  | EmptyString => (EmptyString, None)
  | String c s' =>
      if Ascii.eqb c delim then (EmptyString, Some s')
      else let '(w, r) := extract delim s' in (String c w, r)
  end.

(** [getline(strm, str, delim)]: when the stream is not good the sentry fails,
    [failbit] is set and [str] is left as it was. Otherwise [str] is erased
    and filled with the characters up to [delim], which is consumed; reaching
    the end of the input sets [eofbit], and also [failbit] when nothing at
    all was extracted. Returns the stream and the new value of [str]. *)
Definition getline (strm : istream) (str : string) (delim : ascii) : istream * string :=
  if good strm then
    match extract delim (buf strm) with
    | (w, Some rest) => (mkStream rest false false, w)
    | (w, None) =>
        (mkStream EmptyString true (if w is EmptyString then true else false), w)
    end
  else (mkStream (buf strm) (eofbit strm) true, str).

(** Fuel that lets a [while (getline(...))] loop run to its end: every
    successful call shortens the input or sets [eofbit]. *)
Definition stream_fuel (strm : istream) : nat :=
  if good strm then S (S (String.length (buf strm))) else 1.

Definition comma : ascii := ","%char.
Definition newline : ascii := "010"%char.
Definition space : ascii := " "%char.

(** ** The loop [while (getline(strm, str, delim)) { body }]

    [body] is given the string just read and the loop's state; it returns
    the string as the body leaves it (the token loop trims it in place) and
    the new state. The loop ends at the first call that leaves [failbit]
    set. *)
Fixpoint while_getline {St : Type} (fuel : nat) (strm : istream) (str : string)
    (delim : ascii) (body : string → St → string * St) (s : St) : St :=
  match fuel with
  | 0 => s
  | S fuel' =>
      let '(strm1, str1) := getline strm str delim in
      if failbit strm1 then s
      else
        let '(str2, s2) := body str1 s in
        while_getline fuel' strm1 str2 delim body s2
  end.

(** The loop run with the fuel its stream needs. *)
Definition getline_loop {St : Type} (strm : istream) (str : string)
    (delim : ascii) (body : string → St → string * St) (s : St) : St :=
  while_getline (stream_fuel strm) strm str delim body s.

(** The strings that successive [getline] calls read from [s]: the parts
    between the delimiters, without an empty part after the last one. *)
Fixpoint pieces (delim : ascii) (s : string) : list string :=
  match s with
  | EmptyString => []
  | String c s' =>
      if Ascii.eqb c delim then EmptyString :: pieces delim s'
      else
        match pieces delim s' with
        | w :: ws => String c w :: ws
        | [] => [String c EmptyString]
        end
  end.

(** The course that the parts of a line stand for: the first part is the
    number, the second the title, and the others are the prerequisites,
    each passed through [strip] and kept when something is left of it. *)
Definition course_of_parts (strip : string → string) (parts : list string)
    : Course :=
  mkCourse (nth 0 parts EmptyString) (nth 1 parts EmptyString)
           (filter (λ t, t ≠ EmptyString) (strip <$> drop 2 parts)).

(** ** The tree, as both variants have it *)

(** The courses of a tree from left to right: the nodes in the order in
    which an in-order walk visits them. *)
Fixpoint courses (t : Node) : list Course :=
  match t with
  | nullptr => []
  | node c l r => courses l ++ c :: courses r
  end.

(** Every node of the tree holds a course number that satisfies [P]. *)
Fixpoint all_numbers (P : string → Prop) (t : Node) : Prop :=
  match t with
  | nullptr => True
  | node c l r => P (courseNumber c) ∧ all_numbers P l ∧ all_numbers P r
  end.

(** The ordering invariant, at every node: the numbers on the left are
    strictly below the node's, those on the right are above or equal. *)
Fixpoint ordered (t : Node) : Prop :=
  match t with
  | nullptr => True
  | node c l r =>
      all_numbers (λ k, String.ltb k (courseNumber c) = true) l
      ∧ all_numbers (λ k, String.leb (courseNumber c) k = true) r
      ∧ ordered l ∧ ordered r
  end.

(** A position in a tree: the turns taken from the root. *)
Inductive turn := goLeft | goRight.

Fixpoint subtree (p : list turn) (t : Node) : option Node :=
  match p, t with
  | [], _ => Some t
  | _ :: _, nullptr => None
  | goLeft :: p', node _ l _ => subtree p' l
  | goRight :: p', node _ _ r => subtree p' r
  end.

(** ** The original variant *)
Module V1.

(** [class CourseBST]: the root pointer. *)
Record CourseBST := mkBST { root : Node }.

(** [CourseBST::addNode], lines 69-79. *)
Fixpoint addNode (n : Node) (course : Course) : Node :=
  match n with
  | nullptr => node course nullptr nullptr
  | node c l r =>
      if String.ltb (courseNumber course) (courseNumber c)
      then node c (addNode l course) r
      else node c l (addNode r course)
  end.

(** [CourseBST::inOrder], lines 85-91. *)
Fixpoint inOrder (n : Node) : list Output :=
  match n with
  | nullptr => []
  | node c l r =>
      inOrder l ++ CourseLine (courseNumber c) (courseTitle c) :: inOrder r
  end.

(** [CourseBST::search], lines 97-107. *)
Fixpoint search (n : Node) (number : string) : Node :=
  match n with
  | nullptr => nullptr
  | node c l r =>
      if String.eqb (courseNumber c) number then n
      else if String.ltb number (courseNumber c) then search l number
      else search r number
  end.

Definition CourseBST_new : CourseBST := mkBST nullptr.

Definition Insert (bst : CourseBST) (course : Course) : CourseBST :=
  mkBST (addNode (root bst) course).

Definition PrintCourseList (bst : CourseBST) : list Output :=
  inOrder (root bst).

(** [CourseBST::PrintCourse], lines 127-146. *)
Definition PrintCourse (bst : CourseBST) (number : string) : list Output :=
  match search (root bst) number with
  | nullptr => [CourseNotFound]
  | node c _ _ =>
      [CourseLine (courseNumber c) (courseTitle c);
       if prerequisites c is [] then PrerequisitesNone
       else PrerequisitesList (prerequisites c)]
  end.

(** [token.front()] and [token.back()] of a non-empty string, and
    [token.erase(token.begin())], [token.pop_back()]. *)
Definition front (s : string) : option ascii :=
  match s with EmptyString => None | String c _ => Some c end.

Fixpoint back (s : string) : option ascii :=
  match s with
  | EmptyString => None
  | String c EmptyString => Some c
  | String _ s' => back s'
  end.

Definition erase_begin (s : string) : string :=
  match s with EmptyString => EmptyString | String _ s' => s' end.

Fixpoint pop_back (s : string) : string :=
  match s with
  | EmptyString => EmptyString
  | String _ EmptyString => EmptyString
  | String c s' => String c (pop_back s')
  end.

(** Lines 180-185: the two [if]s that follow the comment "Remove any
    leading or trailing spaces". *)
Definition strip_token (token : string) : string :=
  let token1 :=
    if front token is Some c
    then (if Ascii.eqb c space then erase_begin token else token)
    else token in
  if back token1 is Some c
  then (if Ascii.eqb c space then pop_back token1 else token1)
  else token1.

(** The body of the loop of lines 178-189,
    [while (getline(ss, token, ','))], on the vector of prerequisites. *)
Definition token_body (token : string) (prereqs : list string)
    : string * list string :=
  let token1 := strip_token token in
  (token1, if token1 is EmptyString then prereqs else prereqs ++ [token1]).

(** Lines 169-189: the course that a line is parsed into. *)
Definition parse_line (line : string) : Course :=
  let ss := stream_of line in
  let course := Course_default in
  let '(ss1, number) := getline ss (courseNumber course) comma in
  let '(ss2, title) := getline ss1 (courseTitle course) comma in
  mkCourse number title
    (getline_loop ss2 EmptyString comma token_body (prerequisites course)).

(** The program's state: the tree and what was written to [cout]. *)
Record Env := mkEnv { bst : CourseBST; cout : list Output }.

Definition print (o : Output) (e : Env) : Env :=
  mkEnv (bst e) (cout e ++ [o]).

(** Line 192: [bst.Insert(course)]. *)
Definition store (course : Course) (e : Env) : Env :=
  mkEnv (Insert (bst e) course) (cout e).

(** Lines 164-192: the body of the loop over the lines of the file,
    [while (getline(file, line))]. *)
Definition load_line (line : string) (e : Env) : string * Env :=
  if line is EmptyString then (line, e)
  else (line, store (parse_line line) e).

(** [LoadCourses], lines 155-196. [fs] gives the contents of the files
    that can be opened. *)
Definition LoadCourses (fs : string → option string) (filename : string)
    (e : Env) : Env :=
  match fs filename with
  | None => print (UnableToOpen filename) e
  | Some contents =>
      getline_loop (stream_of contents) EmptyString newline load_line e
  end.

(** The state in which [main] starts, line 206. *)
Definition Env_new : Env := mkEnv CourseBST_new [].

(** The states that calls of [LoadCourses] lead to. *)
Inductive reachable : Env → Prop :=
| reachable_new : reachable Env_new
| reachable_load fs filename e :
    reachable e → reachable (LoadCourses fs filename e).

End V1.

(** ** The enhanced variant *)
Module V2.

(** [class CourseBST]: the root pointer. *)
Record CourseBST := mkBST { root : Node }.

(** [CourseBST::insertNode], lines 333-343. *)
Fixpoint insertNode (n : Node) (course : Course) : Node :=
  match n with
  | nullptr => node course nullptr nullptr
  | node c l r =>
      if String.ltb (courseNumber course) (courseNumber c)
      then node c (insertNode l course) r
      else node c l (insertNode r course)
  end.

(** [CourseBST::inOrderTraversal], lines 349-356. *)
Fixpoint inOrderTraversal (n : Node) : list Output :=
  match n with
  | nullptr => []
  | node c l r =>
      inOrderTraversal l
        ++ CourseLine (courseNumber c) (courseTitle c) :: inOrderTraversal r
  end.

Definition CourseBST_new : CourseBST := mkBST nullptr.

Definition Insert (bst : CourseBST) (course : Course) : CourseBST :=
  mkBST (insertNode (root bst) course).

Definition PrintSortedCourses (bst : CourseBST) : list Output :=
  inOrderTraversal (root bst).

(** [s.find_first_not_of(ch)] and [s.find_last_not_of(ch)] for a single
    character: the index found, or [None] for [string::npos]. *)
Fixpoint find_first_not_of (s : string) (ch : ascii) : option nat :=
  match s with
  | EmptyString => None
  | String c s' =>
      if Ascii.eqb c ch then S <$> find_first_not_of s' ch else Some 0
  end.

Fixpoint find_last_not_of (s : string) (ch : ascii) : option nat :=
  match s with
  | EmptyString => None
  | String c s' =>
      match find_last_not_of s' ch with
      | Some i => Some (S i)
      | None => if Ascii.eqb c ch then None else Some 0
      end
  end.

(** The [+ 1] of line 406 on a [size_t]: [npos + 1] wraps around to 0. *)
Definition plus_one (i : option nat) : nat :=
  match i with None => 0 | Some i => S i end.

Fixpoint take_chars (n : nat) (s : string) : string :=
  match n, s with
  | S n', String c s' => String c (take_chars n' s')
  | _, _ => EmptyString
  end.

Fixpoint drop_chars (n : nat) (s : string) : string :=
  match n, s with
  | S n', String _ s' => drop_chars n' s'
  | _, _ => s
  end.

(** [s.erase(pos, count)] for [pos] within the string, with [None] for a
    [count] of [npos]: the characters from [pos], at most [count] of them,
    are removed. (The two calls of [strip_token] keep [pos] within the
    string, see [find_last_not_of_lt].) *)
Definition erase (s : string) (pos : nat) (count : option nat) : string :=
  take_chars pos s
    +:+ (if count is Some k then drop_chars (pos + k) s else EmptyString).

(** Lines 405-406. *)
Definition strip_token (token : string) : string :=
  let token1 := erase token 0 (find_first_not_of token space) in
  erase token1 (plus_one (find_last_not_of token1 space)) None.

(** The body of the loop of lines 404-410,
    [while (getline(ss, token, ','))], on the vector of prerequisites. *)
Definition token_body (token : string) (prereqs : list string)
    : string * list string :=
  let token1 := strip_token token in
  (token1, if token1 is EmptyString then prereqs else prereqs ++ [token1]).

(** Lines 395-410: the course that a line is parsed into. *)
Definition parse_line (line : string) : Course :=
  let ss := stream_of line in
  let course := Course_default in
  let '(ss1, number) := getline ss (courseNumber course) comma in
  let '(ss2, title) := getline ss1 (courseTitle course) comma in
  mkCourse number title
    (getline_loop ss2 EmptyString comma token_body (prerequisites course)).

(** The program's state: the tree, the hash map and what was written to
    [cout]. *)
Record Env := mkEnv {
  bst : CourseBST;
  courseMap : gmap string Course;
  cout : list Output
}.

Definition print (o : Output) (e : Env) : Env :=
  mkEnv (bst e) (courseMap e) (cout e ++ [o]).

(** Lines 413-414: [bst.Insert(course)], then
    [courseMap[course.courseNumber] = course]. *)
Definition store (course : Course) (e : Env) : Env :=
  mkEnv (Insert (bst e) course)
        (<[courseNumber course := course]> (courseMap e))
        (cout e).

(** Lines 393-414: the body of the loop over the lines of the file,
    [while (getline(file, line))]. *)
Definition load_line (line : string) (e : Env) : string * Env :=
  if line is EmptyString then (line, e)
  else (line, store (parse_line line) e).

(** Lines 426-430: one prerequisite of one entry of the map. *)
Definition check_prereq (owner prereq : string) (e : Env) : Env :=
  if courseMap e !! prereq is None then print (Warning owner prereq) e
  else e.

(** Lines 424-432: the loop over the entries of the map, each with a loop
    over its prerequisites. The order in which an [unordered_map] is
    walked is unspecified; the model walks it as [map_to_list] lists it,
    and nothing below depends on that order. *)
Definition validate (e : Env) : Env :=
  fold_left
    (λ e1 pair,
       fold_left (λ e2 prereq, check_prereq pair.1 prereq e2)
                 (prerequisites pair.2) e1)
    (map_to_list (courseMap e)) e.

(** [LoadCourses], lines 380-433. [fs] gives the contents of the files
    that can be opened. *)
Definition LoadCourses (fs : string → option string) (filename : string)
    (e : Env) : Env :=
  match fs filename with
  | None => print (UnableToOpen filename) e
  | Some contents =>
      validate
        (getline_loop (stream_of contents) EmptyString newline load_line e)
  end.

(** [PrintCourseDetails], lines 439-463. *)
Definition PrintCourseDetails (number : string)
    (courseMap : gmap string Course) : list Output :=
  match courseMap !! number with
  | None => [CourseNotFound]
  | Some course =>
      [CourseLine (courseNumber course) (courseTitle course);
       if prerequisites course is [] then PrerequisitesNone
       else PrerequisitesList (prerequisites course)]
  end.

(** The state in which [main] starts, lines 471-472. *)
Definition Env_new : Env := mkEnv CourseBST_new ∅ [].

(** The states that calls of [LoadCourses] lead to. *)
Inductive reachable : Env → Prop :=
| reachable_new : reachable Env_new
| reachable_load fs filename e :
    reachable e → reachable (LoadCourses fs filename e).

End V2.

(** ** Reference definitions

    Definitions that follow the words of the specification, to be compared
    with the functions of the program. *)

(** A string without its leading spaces, without its trailing spaces, and
    without both. Only the space character counts. *)
Fixpoint trim_left (s : string) : string :=
  match s with
  | EmptyString => EmptyString
  | String c s' => if Ascii.eqb c space then trim_left s' else s
  end.

Fixpoint trim_right (s : string) : string :=
  match s with
  | EmptyString => EmptyString
  | String c s' =>
      match trim_right s' with
      | EmptyString => if Ascii.eqb c space then EmptyString else String c EmptyString
      | t => String c t
      end
  end.

Definition trim_spaces (s : string) : string := trim_right (trim_left s).

(** The lines of a file that are kept: those that are not empty. *)
Definition kept_lines (contents : string) : list string :=
  filter (λ l, l ≠ EmptyString) (pieces newline contents).

(** The warnings that a map calls for: one for each prerequisite, of each
    entry, that is not a key of the map. *)
Definition dangling (m : gmap string Course) : list Output :=
  flat_map
    (λ pair, Warning pair.1
               <$> filter (λ p, m !! p = None) (prerequisites pair.2))
    (map_to_list m).

(** How often a value occurs in a list. *)
Definition count `{EqDecision A} (x : A) (l : list A) : nat :=
  length (filter (λ y, y = x) l).

(** What both variants print for a course that a lookup has found. *)
Definition details (c : Course) : list Output :=
  [CourseLine (courseNumber c) (courseTitle c);
   if prerequisites c is [] then PrerequisitesNone
   else PrerequisitesList (prerequisites c)].

Global Instance Output_eq_dec : EqDecision Output.
Proof. solve_decision. Defined.

(** A token that is stored as a prerequisite holds at least one
    character. *)
Definition prerequisites_filled (c : Course) : Prop :=
  Forall (λ t, t ≠ EmptyString) (prerequisites c).

(** What holds of the two indexes of the enhanced variant between two
    loads: the tree is ordered, every entry of the map is filed under the
    number of its course, that course is in the tree, and no course of the
    tree has an empty prerequisite. *)
Definition catalog_ok (e : V2.Env) : Prop :=
  ordered (V2.root (V2.bst e))
  ∧ (∀ k c, V2.courseMap e !! k = Some c →
       courseNumber c = k ∧ c ∈ courses (V2.root (V2.bst e)))
  ∧ Forall prerequisites_filled (courses (V2.root (V2.bst e))).

(** The same for the tree of the original variant. *)
Definition catalog_ok_V1 (e : V1.Env) : Prop :=
  ordered (V1.root (V1.bst e))
  ∧ Forall prerequisites_filled (courses (V1.root (V1.bst e))).

(** ** Sample inputs *)

Definition intro_first : Course := mkCourse "CS100" "Intro" [].
Definition intro_second : Course := mkCourse "CS100" "Introduction" ["MATH1"].

(** A file of five lines, the second of them empty and the fourth made of
    two spaces. *)
Definition sample_csv : string :=
  "CS200,Data Structures,CS100, CS105" +:+ String newline
  (String newline
  ("CS100,Intro" +:+ String newline
  ("  " +:+ String newline
   "CS100,Introduction,MATH1"))).

(** A file whose only line has a prerequisite after two spaces. *)
Definition spaced_csv : string := "CS200,Data Structures,  CS100".

(** A file whose only line lists one prerequisite twice. *)
Definition twice_csv : string := "CS300,Algorithms,CS200,CS200".

Definition algorithms : Course :=
  mkCourse "CS300" "Algorithms" ["CS200"; "CS200"].

Definition sample_fs (filename : string) : option string :=
  if String.eqb filename "courses.csv" then Some sample_csv
  else if String.eqb filename "spaced.csv" then Some spaced_csv
  else if String.eqb filename "intro.csv" then Some "CS100,Intro"
  else if String.eqb filename "twice.csv" then Some twice_csv
  else None.

Definition data_structures : Course :=
  mkCourse "CS200" "Data Structures" ["CS100"; "CS105"].

(** ** Further reference definitions *)

(** Whether a character occurs in a string. *)
Fixpoint has_char (ch : ascii) (s : string) : bool :=
  match s with
  | EmptyString => false
  | String c s' => Ascii.eqb c ch || has_char ch s'
  end.

(** The pieces written out again, each followed by the delimiter. *)
Fixpoint unsplit (delim : ascii) (ps : list string) : string :=
  match ps with
  | [] => EmptyString
  | w :: ps' => w +:+ String delim (unsplit delim ps')
  end.

(** The body of a [getline] loop that only records what was read. *)
Definition record_piece (w : string) (seen : list string) : string * list string :=
  (w, seen ++ [w]).

(** The number of nodes on the longest way down from the root. *)
Fixpoint height (t : Node) : nat :=
  match t with
  | nullptr => 0
  | node _ l r => S (Nat.max (height l) (height r))
  end.

(** A tree in which no node has a left child. *)
Fixpoint right_chain (t : Node) : Prop :=
  match t with
  | nullptr => True
  | node _ l r => l = nullptr ∧ right_chain r
  end.

(** A token as the enhanced variant stores it: not empty, with no space at
    either end and no comma. *)
Definition clean_token (t : string) : Prop :=
  t ≠ EmptyString
  ∧ V1.front t ≠ Some space
  ∧ V1.back t ≠ Some space
  ∧ has_char comma t = false.

(** A course none of whose fields holds a comma, and whose prerequisites
    are clean tokens. *)
Definition clean_course (c : Course) : Prop :=
  has_char comma (courseNumber c) = false
  ∧ has_char comma (courseTitle c) = false
  ∧ Forall clean_token (prerequisites c).

(** A course none of whose fields holds a comma. *)
Definition comma_free_course (c : Course) : Prop :=
  has_char comma (courseNumber c) = false
  ∧ has_char comma (courseTitle c) = false
  ∧ Forall (λ t, has_char comma t = false) (prerequisites c).

(** One space, or nothing. *)
Definition pad (b : bool) : string :=
  if b then String space EmptyString else EmptyString.

(** The line of the file format for a course: the number, the title and
    the prerequisites, with a comma before each field but the first. *)
Definition format_course (c : Course) : string :=
  courseNumber c
  +:+ String comma
        (courseTitle c
         +:+ fold_right (λ p acc, String comma (p +:+ acc)) EmptyString
               (prerequisites c)).

(** A course that a line of a file can stand for: no field holds a comma or
    a line end, and the prerequisites are clean tokens. *)
Definition well_formed (c : Course) : Prop :=
  clean_course c
  ∧ has_char newline (courseNumber c) = false
  ∧ has_char newline (courseTitle c) = false
  ∧ Forall (λ t, has_char newline t = false) (prerequisites c).

(** ** The text of a lookup *)

Definition nl : string := String newline EmptyString.

(** The loop of lines 139-142 and 457-460,
    [for (size_t i = 0; i < prerequisites.size(); ++i)], on the characters
    written so far. The loop is entered with a non-empty vector only, so
    that [size() - 1] does not wrap around. *)
Fixpoint prerequisites_loop (fuel i : nat) (prereqs : list string)
    (out : string) : string :=
  match fuel with
  | 0 => out
  | S fuel' =>
      if (i <? length prereqs)%nat then
        let out1 := out +:+ nth i prereqs EmptyString in
        let out2 :=
          if (i <? length prereqs - 1)%nat then out1 +:+ ", " else out1 in
        prerequisites_loop fuel' (S i) prereqs out2
      else out
  end.

(** The characters that lines 133-144 of [CourseBST::PrintCourse] and lines
    450-462 of [PrintCourseDetails] write for a course. *)
Definition details_text (course : Course) : string :=
  let out := courseNumber course +:+ ", " +:+ courseTitle course +:+ nl in
  if prerequisites course is [] then out +:+ "Prerequisites: None" +:+ nl
  else
    prerequisites_loop (length (prerequisites course)) 0
      (prerequisites course) (out +:+ "Prerequisites: ")
    +:+ nl.

(** ** The menu *)

(** [::toupper] on a character, in the C locale that the program starts in:
    the letters a to z become A to Z, all else stays. *)
Definition is_lower (c : ascii) : bool :=
  (97 <=? nat_of_ascii c)%nat && (nat_of_ascii c <=? 122)%nat.

Definition toupper (c : ascii) : ascii :=
  if is_lower c then ascii_of_nat (nat_of_ascii c - 32) else c.

(** [transform(s.begin(), s.end(), s.begin(), ::toupper)]. *)
Fixpoint transform_toupper (s : string) : string :=
  match s with
  | EmptyString => EmptyString
  | String c s' => String (toupper c) (transform_toupper s')
  end.

(** Whether a string holds one of the letters a to z. *)
Fixpoint has_lower (s : string) : bool :=
  match s with
  | EmptyString => false
  | String c s' => is_lower c || has_lower s'
  end.

(** What [main] shows: the text it writes itself, a number it writes, and
    what the functions of the catalog write. *)
Inductive Shown :=
| Said (text : string)
| SaidNumber (n : Z)
| Core (o : Output).

Definition defaultFile : string := "CS 300 ABCU_Advising_Program_Input.csv".

(** *** [main] of the enhanced variant, lines 470-538

    One turn of the [while (true)] loop. The extraction [cin >> choice] is
    not modelled: [read] is the number it yields, or [None] when it fails,
    and [cin] is the state of the input after it and after the
    [cin.ignore] that follows it. *)
Module Main2.

Record State := mkState {
  bst : V2.CourseBST;
  courseMap : gmap string Course;
  dataLoaded : bool;
  filename : string;
  courseInput : string;
  cout : list Shown
}.

Inductive Outcome := Continue (st : State) | Return (st : State).

(** Lines 471-480. *)
Definition start : State :=
  mkState V2.CourseBST_new ∅ false EmptyString EmptyString
          [Said ("Welcome to the course planner." +:+ nl)].

Definition say (items : list Shown) (st : State) : State :=
  mkState (bst st) (courseMap st) (dataLoaded st) (filename st)
          (courseInput st) (cout st ++ items).

(** Lines 483-487. *)
Definition menu : list Shown :=
  [Said (nl +:+ "1. Load Data Structure" +:+ nl);
   Said ("2. Print Course List" +:+ nl);
   Said ("3. Print Course" +:+ nl);
   Said ("9. Exit" +:+ nl);
   Said (nl +:+ "What would you like to do? ")].

Definition not_loaded : list Shown :=
  [Said (nl +:+ "Error: No course data loaded. Please load data first." +:+ nl)].

(** Lines 483-536. *)
Definition loop_body (fs : string → option string) (read : option Z)
    (cin : istream) (st : State) : Outcome :=
  let st := say menu st in
  match read with
  | None => Continue (say [Said ("Invalid input. Please enter a number." +:+ nl)] st)
  | Some choice =>
      if (choice =? 1)%Z then
        let st := say [Said "Enter file name (press Enter for default): "] st in
        let '(cin1, filename1) := getline cin (filename st) newline in
        let filename2 :=
          if filename1 is EmptyString then defaultFile else filename1 in
        let e := V2.LoadCourses fs filename2
                   (V2.mkEnv (bst st) (courseMap st) []) in
        Continue
          (mkState (V2.bst e) (V2.courseMap e) true filename2 (courseInput st)
             (cout st ++ (Core <$> V2.cout e)
              ++ [Said ("Course data loaded successfully." +:+ nl)]))
      else if (choice =? 2)%Z then
        if negb (dataLoaded st) then Continue (say not_loaded st)
        else
          Continue
            (say (Said (nl +:+ "Here is a sample schedule:" +:+ nl +:+ nl)
                  :: (Core <$> V2.PrintSortedCourses (bst st))) st)
      else if (choice =? 3)%Z then
        if negb (dataLoaded st) then Continue (say not_loaded st)
        else
          let st := say [Said "What course do you want to know about? "] st in
          let '(cin1, courseInput1) := getline cin (courseInput st) newline in
          let courseInput2 := transform_toupper courseInput1 in
          Continue
            (mkState (bst st) (courseMap st) (dataLoaded st) (filename st)
               courseInput2
               (cout st
                ++ (Core <$> V2.PrintCourseDetails courseInput2 (courseMap st))))
      else if (choice =? 9)%Z then
        Return (say [Said ("Thank you for using the course planner!" +:+ nl)] st)
      else Continue (say [Said ("Invalid option." +:+ nl)] st)
  end.

(** The states that the turns of the loop lead to, whatever is typed and
    whatever the files hold at each turn. *)
Inductive reachable : State → Prop :=
| reachable_start : reachable start
| reachable_turn fs read cin st st' :
    reachable st → loop_body fs read cin st = Continue st' → reachable st'.

End Main2.

(** *** [main] of the original variant, lines 205-261

    One turn of the loop, with [read] and [cin] as above. *)
Module Main1.

Record State := mkState {
  bst : V1.CourseBST;
  filename : string;
  courseInput : string;
  cout : list Shown
}.

Inductive Outcome := Continue (st : State) | Return (st : State).

(** Lines 206-212. *)
Definition start : State :=
  mkState V1.CourseBST_new EmptyString EmptyString
          [Said ("Welcome to the course planner." +:+ nl)].

Definition say (items : list Shown) (st : State) : State :=
  mkState (bst st) (filename st) (courseInput st) (cout st ++ items).

(** Lines 216-220. *)
Definition menu : list Shown :=
  [Said (nl +:+ "1. Load Data Structure." +:+ nl);
   Said ("2. Print Course List." +:+ nl);
   Said ("3. Print Course." +:+ nl);
   Said ("9. Exit" +:+ nl);
   Said (nl +:+ "What would you like to do? ")].

(** Lines 216-259. *)
Definition loop_body (fs : string → option string) (read : option Z)
    (cin : istream) (st : State) : Outcome :=
  let st := say menu st in
  match read with
  | None =>
      Continue
        (say [Said (nl +:+ "Please enter a number from the menu." +:+ nl +:+ nl)] st)
  | Some choice =>
      if (choice =? 1)%Z then
        let st :=
          say [Said "Enter the file name (press Enter to use default file - CS 300 ABCU_Advising_Program_Input.csv): "] st in
        let '(cin1, filename1) := getline cin (filename st) newline in
        let st :=
          if filename1 is EmptyString
          then mkState (bst st) defaultFile (courseInput st)
                 (cout st ++ [Said ("Using default file: " +:+ defaultFile +:+ nl)])
          else mkState (bst st) filename1 (courseInput st) (cout st) in
        let e := V1.LoadCourses fs (filename st) (V1.mkEnv (bst st) []) in
        Continue
          (mkState (V1.bst e) (filename st) (courseInput st)
             (cout st ++ (Core <$> V1.cout e)))
      else if (choice =? 2)%Z then
        Continue
          (say (Said (nl +:+ "Here is a sample schedule:" +:+ nl +:+ nl)
                :: (Core <$> V1.PrintCourseList (bst st))) st)
      else if (choice =? 3)%Z then
        let st := say [Said "What course do you want to know about? "] st in
        let '(cin1, courseInput1) := getline cin (courseInput st) newline in
        let courseInput2 := transform_toupper courseInput1 in
        Continue
          (mkState (bst st) (filename st) courseInput2
             (cout st ++ (Core <$> V1.PrintCourse (bst st) courseInput2)))
      else if (choice =? 9)%Z then
        Return (say [Said ("Thank you for using the course planner!" +:+ nl)] st)
      else
        Continue
          (say [Said nl; SaidNumber choice;
                Said (" is not a valid option." +:+ nl +:+ nl)] st)
  end.

Inductive reachable : State → Prop :=
| reachable_start : reachable start
| reachable_turn fs read cin st st' :
    reachable st → loop_body fs read cin st = Continue st' → reachable st'.

End Main1.

(** A file system in which every name opens one and the same file. *)
Definition only_file (contents : string) (filename : string) : option string :=
  Some contents.

(** A state of the enhanced [main] after a load that found no file. *)
Definition loaded_nothing : Main2.State :=
  Main2.mkState V2.CourseBST_new ∅ true "none.csv" EmptyString [].

(** * Properties *)

(** ** The definitions at work *)

Example pieces_of_line :
  pieces comma "CS200,Data Structures,,CS100," = ["CS200"; "Data Structures"; EmptyString; "CS100"].
Proof. reflexivity. Qed.

Example kept_lines_of_sample :
  kept_lines sample_csv
  = ["CS200,Data Structures,CS100, CS105"; "CS100,Intro"; "  ";
     "CS100,Introduction,MATH1"].
Proof. reflexivity. Qed.

Example getline_at_end_of_input :
  getline (stream_of EmptyString) "kept" comma = (mkStream EmptyString true true, EmptyString)
  ∧ getline (mkStream EmptyString true false) "kept" comma = (mkStream EmptyString true true, "kept").
Proof. split; reflexivity. Qed.

Example trim_spaces_keeps_inner_and_tabs :
  trim_spaces "  CS 100  " = "CS 100"
  ∧ trim_spaces (String "009" " CS100") = String "009" " CS100"
  ∧ trim_spaces "   " = EmptyString.
Proof. repeat split; reflexivity. Qed.

Example strip_token_V1_one_each_side :
  V1.strip_token " CS100 " = "CS100"
  ∧ V1.strip_token "  CS100  " = " CS100 "
  ∧ V1.strip_token " " = EmptyString.
Proof. repeat split; reflexivity. Qed.

Example parse_line_of_spaces :
  V2.parse_line "  " = mkCourse "  " EmptyString []
  ∧ V2.parse_line " ,,  ," = mkCourse " " EmptyString [].
Proof. split; reflexivity. Qed.

(** ** The order on course numbers *)

Lemma ltb_negb_leb (a b : string) : String.ltb a b = negb (String.leb b a).
Proof.
  unfold String.ltb, String.leb. rewrite (String.compare_antisym a b).
  by destruct (String.compare b a).
Qed.

Lemma ltb_false_leb (a b : string) :
  String.ltb a b = false ↔ String.leb b a = true.
Proof. rewrite ltb_negb_leb. by destruct (String.leb b a). Qed.

Lemma ltb_true_leb (a b : string) :
  String.ltb a b = true ↔ String.leb b a = false.
Proof. rewrite ltb_negb_leb. by destruct (String.leb b a). Qed.

Lemma leb_refl (a : string) : String.leb a a = true.
Proof.
  apply Is_true_true. change (String.le a a). reflexivity.
Qed.

Lemma leb_trans (a b c : string) :
  String.leb a b = true → String.leb b c = true → String.leb a c = true.
Proof.
  intros H1%Is_true_true H2%Is_true_true. apply Is_true_true.
  change (String.le a c). by trans b.
Qed.

Lemma ltb_leb (a b : string) : String.ltb a b = true → String.leb a b = true.
Proof.
  intros H%ltb_true_leb.
  destruct (String.leb_total a b) as [?|?]; [done|congruence].
Qed.

Lemma ltb_leb_trans (a b c : string) :
  String.ltb a b = true → String.leb b c = true → String.ltb a c = true.
Proof.
  intros H1 H2. apply ltb_true_leb. apply ltb_true_leb in H1.
  destruct (String.leb c a) eqn:E; [|done].
  by rewrite (leb_trans _ _ _ H2 E) in H1.
Qed.

Lemma ltb_irrefl (a : string) : String.ltb a a = false.
Proof. apply ltb_false_leb, leb_refl. Qed.

(** ** The tree *)

Lemma all_numbers_impl (P Q : string → Prop) (t : Node) :
  (∀ k, P k → Q k) → all_numbers P t → all_numbers Q t.
Proof.
  intros HPQ. induction t as [|c l IHl r IHr]; simpl; [done|].
  intros (? & ? & ?). auto.
Qed.

Lemma all_numbers_courses (P : string → Prop) (t : Node) :
  all_numbers P t ↔ Forall (λ c, P (courseNumber c)) (courses t).
Proof.
  induction t as [|c l IHl r IHr]; simpl.
  - split; auto.
  - rewrite Forall_app, Forall_cons, IHl, IHr. tauto.
Qed.

Lemma insertNode_addNode (t : Node) (c : Course) :
  V1.addNode t c = V2.insertNode t c.
Proof. induction t; simpl; [done|]. by rewrite IHt1, IHt2. Qed.

Lemma inOrder_courses (t : Node) :
  V1.inOrder t = course_line <$> courses t.
Proof.
  induction t as [|c l IHl r IHr]; simpl; [done|].
  by rewrite fmap_app, fmap_cons, IHl, IHr.
Qed.

Lemma inOrderTraversal_courses (t : Node) :
  V2.inOrderTraversal t = course_line <$> courses t.
Proof.
  induction t as [|c l IHl r IHr]; simpl; [done|].
  by rewrite fmap_app, fmap_cons, IHl, IHr.
Qed.

Lemma root_fold_Insert (cs : list Course) (b : V2.CourseBST) :
  V2.root (fold_left V2.Insert cs b) = fold_left V2.insertNode cs (V2.root b).
Proof. revert b. induction cs as [|c cs IH]; intros b; simpl; [done|]. by rewrite IH. Qed.

Lemma root_fold_Insert_V1 (cs : list Course) (b : V1.CourseBST) :
  V1.root (fold_left V1.Insert cs b) = fold_left V2.insertNode cs (V1.root b).
Proof.
  revert b. induction cs as [|c cs IH]; intros b; simpl; [done|].
  rewrite IH. simpl. by rewrite insertNode_addNode.
Qed.

Lemma all_numbers_insertNode (P : string → Prop) (t : Node) (c : Course) :
  all_numbers P t → P (courseNumber c) → all_numbers P (V2.insertNode t c).
Proof.
  intros Ht Hc. induction t as [|d l IHl r IHr]; simpl in *; [done|].
  destruct Ht as (? & ? & ?).
  destruct (String.ltb _ _); simpl; auto.
Qed.

Lemma ordered_insertNode (t : Node) (c : Course) :
  ordered t → ordered (V2.insertNode t c).
Proof.
  induction t as [|d l IHl r IHr]; simpl; [done|].
  intros (Hl & Hr & Ol & Or).
  destruct (String.ltb (courseNumber c) (courseNumber d)) eqn:E; simpl.
  - split_and!; auto using all_numbers_insertNode.
  - split_and!; auto. apply all_numbers_insertNode; [done|].
    by apply ltb_false_leb.
Qed.

Lemma ordered_fold_insertNode (cs : list Course) (t : Node) :
  ordered t → ordered (fold_left V2.insertNode cs t).
Proof.
  revert t. induction cs as [|c cs IH]; intros t Ht; simpl; [done|].
  by apply IH, ordered_insertNode.
Qed.

Lemma subtree_all_numbers (P : string → Prop) (p : list turn) (t : Node) d l r :
  subtree p t = Some (node d l r) → all_numbers P t → P (courseNumber d).
Proof.
  revert t. induction p as [|x p IH]; intros t H HP.
  - simpl in H. injection H as ->. by destruct HP.
  - destruct t as [|e tl tr]; [by destruct x|].
    destruct HP as (_ & Hl & Hr).
    destruct x; simpl in H; [by apply (IH tl)|by apply (IH tr)].
Qed.

(** An insertion leaves every node where it is, with the course it holds. *)
Lemma subtree_insertNode_kept (t : Node) (c : Course) (p : list turn) d l r :
  subtree p t = Some (node d l r) →
  ∃ l' r', subtree p (V2.insertNode t c) = Some (node d l' r').
Proof.
  revert t. induction p as [|x p IH]; intros t H.
  - simpl in H. injection H as ->. simpl.
    destruct (String.ltb _ _); eauto.
  - destruct t as [|e tl tr]; [by destruct x|].
    simpl. destruct x; simpl in H;
      destruct (String.ltb (courseNumber c) (courseNumber e)); simpl; eauto.
Qed.

(** In an ordered tree, the descent of an insertion passes through every
    node that holds the number inserted, and turns right there. *)
Lemma subtree_insertNode_equal (t : Node) (c : Course) (p : list turn) d l r :
  ordered t →
  subtree p t = Some (node d l r) →
  courseNumber c = courseNumber d →
  subtree p (V2.insertNode t c) = Some (node d l (V2.insertNode r c)).
Proof.
  revert t. induction p as [|x p IH]; intros t Ht H Hcd.
  - simpl in H. injection H as ->. simpl.
    by rewrite Hcd, ltb_irrefl.
  - destruct t as [|e tl tr]; [by destruct x|].
    destruct Ht as (Hl & Hr & Ol & Or).
    destruct x; simpl in H.
    + pose proof (subtree_all_numbers _ _ _ _ _ _ H Hl) as Hlt. simpl in Hlt.
      simpl. rewrite Hcd, Hlt. simpl. by apply IH.
    + pose proof (subtree_all_numbers _ _ _ _ _ _ H Hr) as Hle. simpl in Hle.
      apply ltb_false_leb in Hle.
      simpl. rewrite Hcd, Hle. simpl. by apply IH.
Qed.

Lemma courses_insertNode_elem (t : Node) (c : Course) :
  c ∈ courses (V2.insertNode t c).
Proof.
  induction t as [|d l IHl r IHr]; simpl; [set_solver|].
  destruct (String.ltb _ _); simpl; set_solver.
Qed.

(** C1. Every tree built by a sequence of [Insert] calls, in either variant,
    is ordered at each of its nodes: the course numbers in the left subtree
    are strictly below the node's and those in the right subtree are above
    or equal. An insertion never replaces a node, and a course whose number
    equals that of an existing node is put in that node's right subtree. *)
Theorem insert_keeps_order (cs : list Course) :
  let t2 := V2.root (fold_left V2.Insert cs V2.CourseBST_new) in
  let t1 := V1.root (fold_left V1.Insert cs V1.CourseBST_new) in
  ordered t2 ∧ ordered t1 ∧ t1 = t2
  ∧ (∀ c p d l r, subtree p t2 = Some (node d l r) →
       (∃ l' r', subtree p (V2.root (V2.Insert (V2.mkBST t2) c))
                 = Some (node d l' r'))
       ∧ (courseNumber c = courseNumber d →
          subtree p (V2.root (V2.Insert (V2.mkBST t2) c))
          = Some (node d l (V2.insertNode r c))
          ∧ c ∈ courses (V2.insertNode r c)))
  ∧ (∀ c p d l r, subtree p t1 = Some (node d l r) →
       (∃ l' r', subtree p (V1.root (V1.Insert (V1.mkBST t1) c))
                 = Some (node d l' r'))
       ∧ (courseNumber c = courseNumber d →
          subtree p (V1.root (V1.Insert (V1.mkBST t1) c))
          = Some (node d l (V1.addNode r c))
          ∧ c ∈ courses (V1.addNode r c))).
Proof.
  intros t2 t1.
  assert (E : t1 = t2).
  { unfold t1, t2. by rewrite root_fold_Insert, root_fold_Insert_V1. }
  assert (O : ordered t2).
  { unfold t2. rewrite root_fold_Insert. by apply ordered_fold_insertNode. }
  split_and!; [done|by rewrite E|done|..].
  - intros c p d l r H. simpl. split.
    + by eapply subtree_insertNode_kept.
    + intros Hcd. split; [by apply subtree_insertNode_equal|].
      apply courses_insertNode_elem.
  - rewrite E. intros c p d l r H. simpl. rewrite !insertNode_addNode. split.
    + by eapply subtree_insertNode_kept.
    + intros Hcd. split; [by apply subtree_insertNode_equal|].
      apply courses_insertNode_elem.
Qed.

(** ** The listing *)

Lemma courses_insertNode_perm (t : Node) (c : Course) :
  courses (V2.insertNode t c) ≡ₚ c :: courses t.
Proof.
  induction t as [|d l IHl r IHr]; simpl; [done|].
  destruct (String.ltb _ _); simpl.
  - by rewrite IHl.
  - rewrite IHr, <- !Permutation_middle. apply Permutation_swap.
Qed.

Lemma courses_fold_insertNode_perm (cs : list Course) (t : Node) :
  courses (fold_left V2.insertNode cs t) ≡ₚ courses t ++ cs.
Proof.
  revert t. induction cs as [|c cs IH]; intros t; simpl.
  - by rewrite app_nil_r.
  - rewrite IH, courses_insertNode_perm. by rewrite <- Permutation_middle.
Qed.

Lemma ordered_sorted (t : Node) :
  ordered t → StronglySorted number_le (courses t).
Proof.
  induction t as [|d l IHl r IHr]; simpl; [constructor|].
  intros (Hl & Hr & Ol & Or).
  apply all_numbers_courses in Hl, Hr.
  apply StronglySorted_app. split_and!; [|by auto|].
  - intros a b Ha Hb. unfold number_le.
    rewrite Forall_forall in Hl, Hr.
    apply Hl, ltb_leb in Ha.
    apply elem_of_cons in Hb as [->|Hb]; [done|].
    eapply leb_trans; [done|]. by apply Hr.
  - apply StronglySorted_cons. split; [|by auto].
    by rewrite Forall_forall in Hr |- *.
Qed.

Lemma with_number_app (X : string) (l1 l2 : list Course) :
  with_number X (l1 ++ l2) = with_number X l1 ++ with_number X l2.
Proof. apply filter_app. Qed.

Lemma with_number_above (X : string) (l : list Course) :
  Forall (λ c, String.ltb X (courseNumber c) = true) l → with_number X l = [].
Proof.
  induction 1 as [|c l Hc _ IH]; [done|].
  unfold with_number in *. rewrite filter_cons_False; [done|].
  intros E. rewrite E, ltb_irrefl in Hc. discriminate.
Qed.

(** The new course comes after the courses of its number that the tree
    already holds. *)
Lemma with_number_insertNode (X : string) (t : Node) (c : Course) :
  ordered t →
  with_number X (courses (V2.insertNode t c))
  = with_number X (courses t) ++ with_number X [c].
Proof.
  induction t as [|d l IHl r IHr]; simpl; [done|].
  intros (Hl & Hr & Ol & Or).
  destruct (String.ltb (courseNumber c) (courseNumber d)) eqn:E; simpl.
  - rewrite !with_number_app, IHl by done. rewrite <- !(assoc_L (++)).
    f_equal.
    destruct (decide (courseNumber c = X)) as [<-|Hne].
    + rewrite (with_number_above (courseNumber c) (d :: courses r)).
      { by rewrite app_nil_r. }
      constructor; [done|]. apply all_numbers_courses in Hr.
      eapply Forall_impl; [exact Hr|]. simpl. intros e He.
      by eapply ltb_leb_trans.
    + assert (with_number X [c] = []) as ->.
      { unfold with_number. by rewrite filter_cons_False. }
      by rewrite app_nil_r.
  - rewrite !with_number_app. change (d :: courses (V2.insertNode r c))
      with ([d] ++ courses (V2.insertNode r c)).
    change (d :: courses r) with ([d] ++ courses r).
    rewrite !with_number_app, IHr by done. by rewrite <- !(assoc_L (++)).
Qed.

Lemma with_number_fold_insertNode (X : string) (cs : list Course) (t : Node) :
  ordered t →
  with_number X (courses (fold_left V2.insertNode cs t))
  = with_number X (courses t) ++ with_number X cs.
Proof.
  revert t. induction cs as [|c cs IH]; intros t Ht; simpl.
  - by rewrite app_nil_r.
  - rewrite IH by by apply ordered_insertNode.
    rewrite with_number_insertNode by done.
    rewrite <- (assoc_L (++)), <- with_number_app. done.
Qed.

(** In a sorted list, what lies between two courses of one number has
    that number too. *)
Lemma sorted_equal_consecutive (out l1 l2 l3 : list Course) (a b : Course) :
  StronglySorted number_le out →
  out = l1 ++ a :: l2 ++ b :: l3 →
  courseNumber a = courseNumber b →
  Forall (λ c, courseNumber c = courseNumber a) l2.
Proof.
  intros Hs -> Hab.
  apply StronglySorted_app_1_r in Hs.
  apply StronglySorted_cons in Hs as [Ha Hs].
  apply Forall_app in Ha as [Ha _].
  apply Forall_forall. intros c Hc.
  rewrite Forall_forall in Ha. specialize (Ha c Hc).
  assert (Hcb : number_le c b).
  { eapply StronglySorted_app_1_elem_of; [exact Hs|done|set_solver]. }
  unfold number_le in *. rewrite <- Hab in Hcb.
  by apply String.leb_antisym.
Qed.

(** C2. After any sequence of insertions the listing visits exactly the
    courses inserted, in non-decreasing order of course number; the courses
    of one number come one after the other, in the order in which they were
    inserted. The listing of an empty tree is empty. *)
Theorem listing_sorted_stable (cs : list Course) :
  let b := fold_left V2.Insert cs V2.CourseBST_new in
  let out := courses (V2.root b) in
  V2.PrintSortedCourses b = course_line <$> out
  ∧ V1.PrintCourseList (fold_left V1.Insert cs V1.CourseBST_new)
    = course_line <$> out
  ∧ out ≡ₚ cs
  ∧ StronglySorted number_le out
  ∧ (∀ X, with_number X out = with_number X cs)
  ∧ (∀ l1 a l2 b l3, out = l1 ++ a :: l2 ++ b :: l3 →
       courseNumber a = courseNumber b →
       Forall (λ c, courseNumber c = courseNumber a) l2)
  ∧ V2.PrintSortedCourses V2.CourseBST_new = []
  ∧ V1.PrintCourseList V1.CourseBST_new = [].
Proof.
  intros b out.
  assert (Hs : StronglySorted number_le out).
  { unfold out, b. rewrite root_fold_Insert.
    by apply ordered_sorted, ordered_fold_insertNode. }
  split_and!; try done.
  - apply inOrderTraversal_courses.
  - unfold V1.PrintCourseList. rewrite inOrder_courses.
    unfold out, b. by rewrite root_fold_Insert, root_fold_Insert_V1.
  - unfold out, b. rewrite root_fold_Insert.
    by rewrite courses_fold_insertNode_perm.
  - intros X. unfold out, b. rewrite root_fold_Insert.
    by rewrite with_number_fold_insertNode.
  - intros l1 a l2 b' l3. by apply sorted_equal_consecutive.
Qed.

(** ** The [getline] loops *)

Lemma extract_shorter (delim : ascii) (s w rest : string) :
  extract delim s = (w, Some rest) → String.length rest < String.length s.
Proof.
  revert w. induction s as [|c s IH]; intros w; simpl; [done|].
  destruct (Ascii.eqb c delim).
  - intros [= <- <-]. lia.
  - destruct (extract delim s) as [w' r'] eqn:E. intros [= <- ->].
    specialize (IH _ eq_refl). lia.
Qed.

Lemma pieces_extract (delim : ascii) (s : string) :
  pieces delim s
  = match extract delim s with
    | (w, Some rest) => w :: pieces delim rest
    | (w, None) => if w is EmptyString then [] else [w]
    end.
Proof.
  induction s as [|c s IH]; simpl; [done|].
  destruct (Ascii.eqb c delim); [done|].
  rewrite IH. destruct (extract delim s) as [w [rest|]]; [done|].
  by destruct w.
Qed.

Lemma append_nil (b : string) : EmptyString +:+ b = b.
Proof. done. Qed.

Lemma append_cons (c : ascii) (a b : string) :
  String c a +:+ b = String c (a +:+ b).
Proof. done. Qed.

(** What is left of the first piece: nothing, or a delimiter and the rest. *)
Lemma extract_split (delim : ascii) (s : string) :
  let '(w, r) := extract delim s in
  s = w +:+ (if r is Some rest then String delim rest else EmptyString)
  ∧ (∀ w1 w2, w ≠ w1 +:+ String delim w2).
Proof.
  induction s as [|c s IH]; simpl.
  - split; [done|]. by intros [|??] ?.
  - destruct (Ascii.eqb_spec c delim) as [->|Hne].
    + split; [done|]. by intros [|??] ?.
    + destruct (extract delim s) as [w r]. destruct IH as [-> IH].
      split; [done|]. intros [|c1 w1] w2.
      * rewrite append_nil. congruence.
      * rewrite append_cons. intros [= _ Hw]. by eapply IH.
Qed.

Lemma getline_not_good (strm : istream) (str : string) (delim : ascii) :
  good strm = false →
  getline strm str delim = (mkStream (buf strm) (eofbit strm) true, str).
Proof. unfold getline. by intros ->. Qed.

Lemma getline_stream_of (s str : string) (delim : ascii) :
  getline (stream_of s) str delim
  = match extract delim s with
    | (w, Some rest) => (stream_of rest, w)
    | (w, None) =>
        (mkStream EmptyString true (if w is EmptyString then true else false), w)
    end.
Proof. done. Qed.

Section loops.
Context {St : Type} (delim : ascii) (body : string → St → string * St).

Lemma while_getline_not_good fuel strm str s :
  good strm = false → while_getline fuel strm str delim body s = s.
Proof.
  intros Hg. destruct fuel as [|fuel]; simpl; [done|].
  by rewrite getline_not_good.
Qed.

(** With enough fuel, the loop runs its body on each piece in turn. *)
Lemma while_getline_pieces fuel content str s :
  S (S (String.length content)) ≤ fuel →
  while_getline fuel (stream_of content) str delim body s
  = fold_left (λ s1 w, (body w s1).2) (pieces delim content) s.
Proof.
  revert content str s.
  induction fuel as [|fuel IH]; intros content str s Hf; [lia|].
  cbn [while_getline]. rewrite getline_stream_of, pieces_extract.
  destruct (extract delim content) as [w [rest|]] eqn:E.
  - simpl. destruct (body w s) as [str2 s2] eqn:Eb.
    apply extract_shorter in E.
    by rewrite IH by lia.
  - destruct w as [|c w]; simpl; [done|].
    destruct (body (String c w) s) as [str2 s2] eqn:Eb. simpl.
    by rewrite while_getline_not_good.
Qed.

Lemma getline_loop_pieces content str s :
  getline_loop (stream_of content) str delim body s
  = fold_left (λ s1 w, (body w s1).2) (pieces delim content) s.
Proof. unfold getline_loop. by rewrite while_getline_pieces. Qed.

Lemma getline_loop_not_good strm str s :
  good strm = false → getline_loop strm str delim body s = s.
Proof. apply while_getline_not_good. Qed.

(** The loop satisfies the equation of the [while] statement it stands
    for, on every stream: the fuel it is given never runs out. *)
Lemma getline_loop_unfold strm str s :
  getline_loop strm str delim body s
  = let '(strm1, str1) := getline strm str delim in
    if failbit strm1 then s
    else let '(str2, s2) := body str1 s in
         getline_loop strm1 str2 delim body s2.
Proof.
  destruct (good strm) eqn:Hg.
  - destruct strm as [content [] []]; try done.
    change (mkStream content false false) with (stream_of content).
    rewrite getline_loop_pieces, getline_stream_of, pieces_extract.
    destruct (extract delim content) as [w [rest|]] eqn:E.
    + simpl. destruct (body w s) as [str2 s2] eqn:Eb.
      by rewrite getline_loop_pieces.
    + destruct w as [|c w]; simpl; [done|].
      destruct (body (String c w) s) as [str2 s2] eqn:Eb. simpl.
      by rewrite getline_loop_not_good.
  - rewrite getline_loop_not_good, getline_not_good by done. done.
Qed.
End loops.

(** ** Parsing a line *)

Section parse.
Context (strip : string → string) (body : string → list string → string * list string).
Hypothesis body_spec : ∀ token prereqs,
  (body token prereqs).2
  = if strip token is EmptyString then prereqs else prereqs ++ [strip token].

Lemma token_loop_filter (parts : list string) (prereqs : list string) :
  fold_left (λ s1 w, (body w s1).2) parts prereqs
  = prereqs ++ filter (λ t, t ≠ EmptyString) (strip <$> parts).
Proof.
  revert prereqs. induction parts as [|w parts IH]; intros prereqs.
  - simpl. by rewrite app_nil_r.
  - cbn [fold_left]. rewrite IH, body_spec, fmap_cons, filter_cons.
    destruct (strip w) eqn:E.
    + by rewrite decide_False by (by intros ?).
    + rewrite decide_True by done. by rewrite <- (assoc_L (++)).
Qed.

Lemma parse_parts (line : string) :
  (let ss := stream_of line in
   let course := Course_default in
   let '(ss1, number) := getline ss (courseNumber course) comma in
   let '(ss2, title) := getline ss1 (courseTitle course) comma in
   mkCourse number title
     (getline_loop ss2 EmptyString comma body (prerequisites course)))
  = course_of_parts strip (pieces comma line).
Proof.
  cbv zeta. rewrite getline_stream_of, (pieces_extract comma line).
  destruct (extract comma line) as [w [rest|]].
  - rewrite getline_stream_of, (pieces_extract comma rest).
    destruct (extract comma rest) as [t [rest2|]].
    + rewrite getline_loop_pieces, token_loop_filter. done.
    + rewrite getline_loop_not_good by done. by destruct t.
  - rewrite getline_not_good by done.
    rewrite getline_loop_not_good by done. by destruct w.
Qed.
End parse.

Lemma parse_line_parts_V1 (line : string) :
  V1.parse_line line = course_of_parts V1.strip_token (pieces comma line).
Proof. by apply parse_parts. Qed.

Lemma parse_line_parts (line : string) :
  V2.parse_line line = course_of_parts V2.strip_token (pieces comma line).
Proof. by apply parse_parts. Qed.

Lemma course_of_parts_prerequisites strip parts :
  Forall (λ t, t ≠ EmptyString) (prerequisites (course_of_parts strip parts)).
Proof.
  simpl. apply Forall_forall. intros t Ht.
  by apply list_elem_of_filter in Ht as [? _].
Qed.

(** The number of a parsed line is what stands before its first comma, or
    the whole line when it has no comma; without a comma the title is
    empty. *)
Lemma course_of_parts_number strip (line : string) :
  let c := course_of_parts strip (pieces comma line) in
  (∃ rest, line = courseNumber c +:+ rest
           ∧ (rest = EmptyString ∨ ∃ r, rest = String comma r))
  ∧ (∀ w1 w2, courseNumber c ≠ w1 +:+ String comma w2)
  ∧ ((∀ w1 w2, line ≠ w1 +:+ String comma w2) → courseTitle c = EmptyString).
Proof.
  simpl. rewrite pieces_extract.
  pose proof (extract_split comma line) as H.
  destruct (extract comma line) as [w [rest|]]; destruct H as [H1 H2].
  - simpl. split_and!; [eauto|done|]. intros H. by destruct (H w rest).
  - assert (nth 0 (if w is EmptyString then [] else [w]) EmptyString = w) as ->
      by by destruct w.
    split_and!; [eauto|done|]. intros _. by destruct w.
Qed.

(** ** Trimming a token in the enhanced variant *)

Lemma append_nil_r (a : string) : a +:+ EmptyString = a.
Proof. induction a as [|c a IH]; [done|]. by rewrite append_cons, IH. Qed.

Lemma find_last_not_of_lt (s : string) (ch : ascii) (i : nat) :
  V2.find_last_not_of s ch = Some i → i < String.length s.
Proof.
  revert i. induction s as [|c s IH]; intros i; simpl; [done|].
  destruct (V2.find_last_not_of s ch) as [j|].
  - intros [= <-]. specialize (IH _ eq_refl). lia.
  - destruct (Ascii.eqb c ch); [done|]. intros [= <-]. lia.
Qed.

Lemma erase_leading (s : string) :
  V2.erase s 0 (V2.find_first_not_of s space) = trim_left s.
Proof.
  unfold V2.erase.
  assert (V2.take_chars 0 s = EmptyString) as -> by by destruct s.
  rewrite append_nil.
  induction s as [|c s IH]; simpl; [done|].
  destruct (Ascii.eqb c space); [|done].
  rewrite <- IH. by destruct (V2.find_first_not_of s space).
Qed.

Lemma find_last_trim_right (s : string) :
  match V2.find_last_not_of s space with
  | None => trim_right s = EmptyString
  | Some i => trim_right s = V2.take_chars (S i) s ∧ trim_right s ≠ EmptyString
  end.
Proof.
  induction s as [|c s IH]; simpl; [done|].
  destruct (V2.find_last_not_of s space) as [i|].
  - destruct IH as [IH1 IH2]. rewrite <- IH1.
    by destruct (trim_right s).
  - rewrite IH. destruct (Ascii.eqb c space); [done|].
    split; [|done]. by destruct s.
Qed.

Lemma erase_trailing (s : string) :
  V2.erase s (V2.plus_one (V2.find_last_not_of s space)) None = trim_right s.
Proof.
  unfold V2.erase. rewrite append_nil_r.
  pose proof (find_last_trim_right s) as H.
  destruct (V2.find_last_not_of s space) as [i|]; simpl.
  - by destruct H as [-> _].
  - rewrite H. by destruct s.
Qed.

(** The two [erase] calls of the enhanced variant remove all the leading
    and all the trailing spaces of a token. *)
Lemma strip_token_trim (token : string) :
  V2.strip_token token = trim_spaces token.
Proof. unfold V2.strip_token. by rewrite erase_leading, erase_trailing. Qed.

(** ** Loading a file *)

Lemma load_lines_fold_V1 (contents : string) (e : V1.Env) :
  getline_loop (stream_of contents) EmptyString newline V1.load_line e
  = fold_left (λ e1 c, V1.store c e1) (V1.parse_line <$> kept_lines contents) e.
Proof.
  rewrite getline_loop_pieces. unfold kept_lines.
  generalize (pieces newline contents). intros ls. revert e.
  induction ls as [|w ls IH]; intros e; [done|].
  cbn [fold_left]. rewrite IH, filter_cons.
  by destruct w.
Qed.

Lemma load_lines_fold (contents : string) (e : V2.Env) :
  getline_loop (stream_of contents) EmptyString newline V2.load_line e
  = fold_left (λ e1 c, V2.store c e1) (V2.parse_line <$> kept_lines contents) e.
Proof.
  rewrite getline_loop_pieces. unfold kept_lines.
  generalize (pieces newline contents). intros ls. revert e.
  induction ls as [|w ls IH]; intros e; [done|].
  cbn [fold_left]. rewrite IH, filter_cons.
  by destruct w.
Qed.

Lemma fold_store_V1 (cs : list Course) (e : V1.Env) :
  fold_left (λ e1 c, V1.store c e1) cs e
  = V1.mkEnv (fold_left V1.Insert cs (V1.bst e)) (V1.cout e).
Proof.
  revert e. induction cs as [|c cs IH]; intros e; simpl; [by destruct e|].
  by rewrite IH.
Qed.

Lemma fold_store (cs : list Course) (e : V2.Env) :
  fold_left (λ e1 c, V2.store c e1) cs e
  = V2.mkEnv (fold_left V2.Insert cs (V2.bst e))
             (fold_left (λ m c, <[courseNumber c := c]> m) cs (V2.courseMap e))
             (V2.cout e).
Proof.
  revert e. induction cs as [|c cs IH]; intros e; simpl; [by destruct e|].
  by rewrite IH.
Qed.

(** ** The validation pass *)

Lemma check_prereqs_fold (owner : string) (ps : list string) (e : V2.Env) :
  fold_left (λ e2 prereq, V2.check_prereq owner prereq e2) ps e
  = V2.mkEnv (V2.bst e) (V2.courseMap e)
      (V2.cout e
       ++ (Warning owner <$> filter (λ p, V2.courseMap e !! p = None) ps)).
Proof.
  revert e. induction ps as [|p ps IH]; intros e.
  - simpl. rewrite app_nil_r. by destruct e.
  - cbn [fold_left]. rewrite IH, filter_cons. unfold V2.check_prereq.
    destruct (V2.courseMap e !! p) eqn:E; simpl; [done|].
    by rewrite <- (assoc_L (++)).
Qed.

Lemma validate_spec (e : V2.Env) :
  V2.validate e
  = V2.mkEnv (V2.bst e) (V2.courseMap e)
             (V2.cout e ++ dangling (V2.courseMap e)).
Proof.
  unfold V2.validate, dangling.
  generalize (map_to_list (V2.courseMap e)). intros L.
  assert (H : ∀ e1, V2.courseMap e1 = V2.courseMap e →
    fold_left
      (λ e1 pair,
         fold_left (λ e2 prereq, V2.check_prereq pair.1 prereq e2)
                   (prerequisites pair.2) e1) L e1
    = V2.mkEnv (V2.bst e1) (V2.courseMap e)
        (V2.cout e1
         ++ flat_map
              (λ pair, Warning pair.1
                 <$> filter (λ p, V2.courseMap e !! p = None)
                            (prerequisites pair.2)) L)).
  { induction L as [|[k c] L IH]; intros e1 He1.
    - simpl. rewrite app_nil_r, <- He1. by destruct e1.
    - cbn [fold_left flat_map]. rewrite check_prereqs_fold.
      rewrite IH by done. simpl. rewrite He1.
      by rewrite <- (assoc_L (++)). }
  by apply H.
Qed.

Lemma count_app `{EqDecision A} (x : A) (l1 l2 : list A) :
  count x (l1 ++ l2) = count x l1 + count x l2.
Proof. unfold count. by rewrite filter_app, length_app. Qed.

Lemma count_warnings (k owner missing : string) (ps : list string) :
  count (Warning owner missing) (Warning k <$> ps)
  = if decide (k = owner) then count missing ps else 0.
Proof.
  unfold count. induction ps as [|p ps IH].
  - simpl. by destruct (decide _).
  - rewrite fmap_cons, filter_cons, (filter_cons _ p).
    destruct (decide (Warning k p = Warning owner missing)) as [[= -> ->]|Hne].
    + rewrite !decide_True by done. simpl. by rewrite IH, decide_True by done.
    + rewrite IH. destruct (decide (k = owner)) as [->|]; [|done].
      by rewrite decide_False by congruence.
Qed.

Lemma count_filter_absent (m : gmap string Course) (missing : string)
    (ps : list string) :
  count missing (filter (λ p, m !! p = None) ps)
  = if m !! missing is None then count missing ps else 0.
Proof.
  unfold count. induction ps as [|p ps IH]; simpl.
  - by destruct (m !! missing).
  - rewrite !filter_cons.
    destruct (decide (p = missing)) as [->|Hp].
    + destruct (m !! missing) eqn:E.
      * by rewrite decide_False by congruence.
      * rewrite decide_True by done. rewrite filter_cons, decide_True by done.
        simpl. by rewrite IH.
    + destruct (decide (m !! p = None)); [|done].
      by rewrite filter_cons, decide_False by done.
Qed.

Lemma count_flat_map_absent {B} `{EqDecision A} (x : A) (g : string * B → list A)
    (owner : string) (L : list (string * B)) :
  owner ∉ L.*1 → (∀ k b, k ≠ owner → count x (g (k, b)) = 0) →
  count x (flat_map g L) = 0.
Proof.
  intros Hn Hg. induction L as [|[k b] L IH]; simpl; [done|].
  rewrite fmap_cons, not_elem_of_cons in Hn. destruct Hn as [Hk Hn].
  rewrite count_app, IH by done. rewrite Hg; [done|]. by intros ->.
Qed.

Lemma count_flat_map_present {B} `{EqDecision A} (x : A) (g : string * B → list A)
    (owner : string) (b : B) (L : list (string * B)) :
  NoDup L.*1 → (owner, b) ∈ L →
  (∀ k b', k ≠ owner → count x (g (k, b')) = 0) →
  count x (flat_map g L) = count x (g (owner, b)).
Proof.
  intros Hnd Hin Hg. induction L as [|[k b'] L IH]; [by apply elem_of_nil in Hin|].
  rewrite fmap_cons, NoDup_cons in Hnd. destruct Hnd as [Hk Hnd].
  simpl. rewrite count_app.
  apply elem_of_cons in Hin as [[= <- <-]|Hin].
  - by rewrite (count_flat_map_absent x g owner L), Nat.add_0_r.
  - rewrite IH by done. rewrite Hg; [done|].
    intros ->. apply Hk. by apply (list_elem_of_fmap_2 fst) in Hin.
Qed.

(** How many warnings name a given owner and a given missing number. *)
Lemma count_dangling (m : gmap string Course) (owner missing : string) :
  count (Warning owner missing) (dangling m)
  = match m !! owner with
    | Some c => if m !! missing is None then count missing (prerequisites c) else 0
    | None => 0
    end.
Proof.
  unfold dangling.
  set (g := λ pair : string * Course,
         Warning pair.1 <$> filter (λ p, m !! p = None) (prerequisites pair.2)).
  assert (Hg : ∀ k b, k ≠ owner → count (Warning owner missing) (g (k, b)) = 0).
  { intros k b Hk. unfold g. simpl. rewrite count_warnings.
    by rewrite decide_False. }
  destruct (m !! owner) as [c|] eqn:E.
  - rewrite (count_flat_map_present _ g owner c).
    + unfold g. simpl. rewrite count_warnings, decide_True by done.
      apply count_filter_absent.
    + apply NoDup_fst_map_to_list.
    + by apply elem_of_map_to_list.
    + done.
  - apply (count_flat_map_absent _ g owner); [|done].
    intros ([k c] & -> & Hin)%list_elem_of_fmap.
    apply elem_of_map_to_list in Hin. simpl in *. congruence.
Qed.

Lemma dangling_nil (m : gmap string Course) :
  (∀ k c p, m !! k = Some c → p ∈ prerequisites c → is_Some (m !! p)) →
  dangling m = [].
Proof.
  intros H. unfold dangling.
  assert (Hin : ∀ kc, kc ∈ map_to_list m → m !! kc.1 = Some kc.2).
  { intros [k c]. apply elem_of_map_to_list. }
  induction (map_to_list m) as [|[k c] L IH]; simpl; [done|].
  rewrite IH by (intros; apply Hin; by right).
  assert (Hkc : m !! k = Some c) by (apply (Hin (k, c)); by left).
  rewrite app_nil_r.
  assert (filter (λ p, m !! p = None) (prerequisites c) = []) as ->; [|done].
  assert (H' : ∀ p, p ∈ prerequisites c → is_Some (m !! p)) by eauto.
  clear H. rename H' into H.
  induction (prerequisites c) as [|p ps IHp]; [done|].
  rewrite filter_cons.
  destruct (H p) as [c' Hc']; [by left|].
  rewrite decide_False by congruence.
  apply IHp. intros q Hq. apply H. by right.
Qed.

Lemma dangling_warnings (m : gmap string Course) :
  Forall (λ o, ∃ owner missing, o = Warning owner missing) (dangling m).
Proof.
  unfold dangling. apply Forall_flat_map, Forall_forall. intros [k c] _.
  apply Forall_fmap, Forall_forall. intros p _. simpl. eauto.
Qed.

(** ** Lookups *)

(** The map answers with the last course stored under a number. *)
Lemma lookup_fold_insert (cs : list Course) (m : gmap string Course) (X : string) :
  fold_left (λ m1 c, <[courseNumber c := c]> m1) cs m !! X
  = match last (with_number X cs) with
    | Some c => Some c
    | None => m !! X
    end.
Proof.
  revert m. induction cs as [|c cs IH]; intros m; [done|].
  cbn [fold_left]. rewrite IH. unfold with_number. rewrite filter_cons.
  destruct (decide (courseNumber c = X)) as [<-|Hne].
  - destruct (filter _ cs) as [|x l] eqn:E.
    + simpl. by rewrite lookup_insert_eq.
    + rewrite last_cons_cons.
      destruct (last (x :: l)) eqn:El; [done|].
      by apply last_None in El.
  - destruct (last _); [done|]. by rewrite lookup_insert_ne.
Qed.

Lemma with_number_below (X : string) (l : list Course) :
  Forall (λ c, String.ltb (courseNumber c) X = true) l → with_number X l = [].
Proof.
  induction 1 as [|c l Hc _ IH]; [done|].
  unfold with_number in *. rewrite filter_cons_False; [done|].
  intros E. rewrite E, ltb_irrefl in Hc. discriminate.
Qed.

(** In an ordered tree, [search] stops at the first of the courses that
    carry the number, in the order of the listing. *)
Lemma search_first (t : Node) (X : string) :
  ordered t →
  match V1.search t X with
  | nullptr => with_number X (courses t) = []
  | node c _ _ => head (with_number X (courses t)) = Some c
  end.
Proof.
  induction t as [|d l IHl r IHr]; [done|].
  intros (Hl & Hr & Ol & Or). cbn [V1.search courses].
  apply all_numbers_courses in Hl, Hr.
  destruct (String.eqb_spec (courseNumber d) X) as [<-|Hne].
  - rewrite with_number_app, (with_number_below _ _ Hl). unfold with_number.
    by rewrite filter_cons_True.
  - destruct (String.ltb X (courseNumber d)) eqn:E.
    + assert (with_number X (courses l ++ d :: courses r)
              = with_number X (courses l)) as ->; [|by apply IHl].
      rewrite with_number_app, (with_number_above X (d :: courses r)).
      { by rewrite app_nil_r. }
      constructor; [done|]. eapply Forall_impl; [exact Hr|]. simpl.
      intros e He. by eapply ltb_leb_trans.
    + assert (Hd : String.ltb (courseNumber d) X = true).
      { apply ltb_true_leb. destruct (String.leb X (courseNumber d)) eqn:E'; [|done].
        apply ltb_false_leb in E. destruct Hne. by apply String.leb_antisym. }
      assert (with_number X (courses l ++ d :: courses r)
              = with_number X (courses r)) as ->; [|by apply IHr].
      rewrite with_number_app, (with_number_below X (courses l)).
      { unfold with_number. by rewrite filter_cons_False. }
      eapply Forall_impl; [exact Hl|]. simpl. intros e He.
      apply ltb_true_leb. apply ltb_true_leb in Hd.
      destruct (String.leb X (courseNumber e)) eqn:E'; [|done].
      apply ltb_leb in He. by rewrite (leb_trans _ _ _ E' He) in Hd.
Qed.

(** ** What the loads maintain *)

Lemma parse_line_filled (line : string) :
  prerequisites_filled (V2.parse_line line).
Proof. rewrite parse_line_parts. apply course_of_parts_prerequisites. Qed.

Lemma parse_line_filled_V1 (line : string) :
  prerequisites_filled (V1.parse_line line).
Proof. rewrite parse_line_parts_V1. apply course_of_parts_prerequisites. Qed.

Lemma store_ok (c : Course) (e : V2.Env) :
  catalog_ok e → prerequisites_filled c → catalog_ok (V2.store c e).
Proof.
  intros (Ho & Hm & Hp) Hc. unfold catalog_ok. simpl. split_and!.
  - by apply ordered_insertNode.
  - intros k c'. rewrite lookup_insert. case_decide as Hk.
    + intros [= <-]. split; [done|]. apply courses_insertNode_elem.
    + intros H. destruct (Hm _ _ H) as [? Hin]. split; [done|].
      rewrite courses_insertNode_perm. by right.
  - rewrite courses_insertNode_perm. by constructor.
Qed.

Lemma fold_store_ok (cs : list Course) (e : V2.Env) :
  catalog_ok e → Forall prerequisites_filled cs →
  catalog_ok (fold_left (λ e1 c, V2.store c e1) cs e).
Proof.
  intros He Hcs. revert e He.
  induction Hcs as [|c cs Hc _ IH]; intros e He; [done|].
  simpl. by apply IH, store_ok.
Qed.

Lemma LoadCourses_ok fs filename (e : V2.Env) :
  catalog_ok e → catalog_ok (V2.LoadCourses fs filename e).
Proof.
  intros He. unfold V2.LoadCourses. destruct (fs filename) as [contents|].
  - rewrite validate_spec, load_lines_fold.
    assert (H : catalog_ok (fold_left (λ e1 c, V2.store c e1)
                    (V2.parse_line <$> kept_lines contents) e)).
    { apply fold_store_ok; [done|]. apply Forall_fmap, Forall_forall.
      intros l _. apply parse_line_filled. }
    exact H.
  - exact He.
Qed.

Lemma reachable_ok (e : V2.Env) : V2.reachable e → catalog_ok e.
Proof.
  induction 1 as [|fs filename e _ IH].
  - unfold catalog_ok. simpl. split_and!; [done| |constructor].
    intros k c. by rewrite lookup_empty.
  - by apply LoadCourses_ok.
Qed.

Lemma store_ok_V1 (c : Course) (e : V1.Env) :
  catalog_ok_V1 e → prerequisites_filled c → catalog_ok_V1 (V1.store c e).
Proof.
  intros (Ho & Hp) Hc. unfold catalog_ok_V1. simpl.
  rewrite insertNode_addNode. split.
  - by apply ordered_insertNode.
  - rewrite courses_insertNode_perm. by constructor.
Qed.

Lemma LoadCourses_ok_V1 fs filename (e : V1.Env) :
  catalog_ok_V1 e → catalog_ok_V1 (V1.LoadCourses fs filename e).
Proof.
  intros He. unfold V1.LoadCourses. destruct (fs filename) as [contents|].
  - rewrite load_lines_fold_V1.
    assert (Hcs : Forall prerequisites_filled (V1.parse_line <$> kept_lines contents)).
    { apply Forall_fmap, Forall_forall. intros l _. apply parse_line_filled_V1. }
    revert e He. induction Hcs as [|c cs Hc _ IH]; intros e He; [done|].
    simpl. by apply IH, store_ok_V1.
  - exact He.
Qed.

Lemma reachable_ok_V1 (e : V1.Env) : V1.reachable e → catalog_ok_V1 e.
Proof.
  induction 1 as [|fs filename e _ IH].
  - unfold catalog_ok_V1. simpl. split; [done|constructor].
  - by apply LoadCourses_ok_V1.
Qed.

(** ** The claims about lookups and loads *)

Lemma with_number_absent (X : string) (cs : list Course) :
  X ∉ courseNumber <$> cs → with_number X cs = [].
Proof.
  induction cs as [|c cs IH]; [done|].
  rewrite fmap_cons, not_elem_of_cons. intros [Hc Hcs].
  unfold with_number in *. rewrite filter_cons_False by congruence. auto.
Qed.

Lemma PrintCourse_first (cs : list Course) (X : string) :
  V1.PrintCourse (fold_left V1.Insert cs V1.CourseBST_new) X
  = match head (with_number X cs) with
    | Some c => details c
    | None => [CourseNotFound]
    end.
Proof.
  unfold V1.PrintCourse. rewrite root_fold_Insert_V1. simpl.
  pose proof (search_first (fold_left V2.insertNode cs nullptr) X
                (ordered_fold_insertNode cs nullptr I)) as H.
  rewrite with_number_fold_insertNode in H by done. simpl in H.
  destruct (V1.search _ X) as [|c l r].
  - by rewrite H.
  - by rewrite H.
Qed.

Lemma PrintCourseDetails_last (cs : list Course) (e : V2.Env) (X : string) :
  V2.PrintCourseDetails X
    (V2.courseMap (fold_left (λ e1 c, V2.store c e1) cs e))
  = match last (with_number X cs) with
    | Some c => details c
    | None => V2.PrintCourseDetails X (V2.courseMap e)
    end.
Proof.
  unfold V2.PrintCourseDetails. rewrite fold_store. simpl.
  rewrite lookup_fold_insert. by destruct (last _).
Qed.

(** C3, as amended. Where lookups go through the map (the enhanced
    variant), a lookup answers with the course stored last under the number,
    while the listing keeps every course stored under it. Where lookups
    search the tree (the original variant), the answer is the course stored
    first under the number. *)
Theorem lookup_last_in_map_first_in_tree (cs : list Course) (X : string) :
  let e := fold_left (λ e1 c, V2.store c e1) cs V2.Env_new in
  (∀ c, last (with_number X cs) = Some c →
        V2.PrintCourseDetails X (V2.courseMap e) = details c)
  ∧ with_number X (courses (V2.root (V2.bst e))) = with_number X cs
  ∧ (∀ c, head (with_number X cs) = Some c →
        V1.PrintCourse (fold_left V1.Insert cs V1.CourseBST_new) X = details c).
Proof.
  intros e. split_and!.
  - intros c Hc. unfold e. by rewrite PrintCourseDetails_last, Hc.
  - unfold e. rewrite fold_store. simpl. rewrite root_fold_Insert.
    by rewrite with_number_fold_insertNode.
  - intros c Hc. by rewrite PrintCourse_first, Hc.
Qed.

(** C4. When the file cannot be opened, [LoadCourses] reports it and
    leaves the tree, and the map of the enhanced variant, as they were. *)
Theorem open_failure_changes_nothing (fs : string → option string)
    (filename : string) (e2 : V2.Env) (e1 : V1.Env) :
  fs filename = None →
  V2.LoadCourses fs filename e2
  = V2.mkEnv (V2.bst e2) (V2.courseMap e2) (V2.cout e2 ++ [UnableToOpen filename])
  ∧ V1.LoadCourses fs filename e1
    = V1.mkEnv (V1.bst e1) (V1.cout e1 ++ [UnableToOpen filename]).
Proof. intros H. unfold V2.LoadCourses, V1.LoadCourses. by rewrite H. Qed.

(** The enhanced variant stores every prerequisite field without its
    leading and trailing spaces and drops the fields of which nothing is
    left; the number and the title are stored as they stand in the line. *)
Lemma parse_line_trims (line : string) :
  V2.parse_line line = course_of_parts trim_spaces (pieces comma line).
Proof.
  rewrite parse_line_parts. unfold course_of_parts. f_equal. f_equal.
  apply list_fmap_ext. intros _ t _. apply strip_token_trim.
Qed.

(** C5, at the input on which the original variant departs from it: of two
    leading spaces the original variant removes one, where the enhanced
    variant removes both. *)
Theorem original_strips_one_space :
  V1.parse_line spaced_csv
  = mkCourse "CS200" "Data Structures" [" CS100"]
  ∧ V2.parse_line spaced_csv
    = mkCourse "CS200" "Data Structures" ["CS100"]
  ∧ trim_spaces "  CS100" = "CS100"
  ∧ courses (V1.root (V1.bst (V1.LoadCourses sample_fs "spaced.csv" V1.Env_new)))
    = [mkCourse "CS200" "Data Structures" [" CS100"]].
Proof. by vm_compute. Qed.

Lemma LoadCourses_records fs filename contents (e : V2.Env) :
  fs filename = Some contents →
  V2.LoadCourses fs filename e
  = V2.validate (fold_left (λ e1 c, V2.store c e1)
                   (V2.parse_line <$> kept_lines contents) e).
Proof. intros H. unfold V2.LoadCourses. by rewrite H, load_lines_fold. Qed.

Lemma LoadCourses_records_V1 fs filename contents (e : V1.Env) :
  fs filename = Some contents →
  V1.LoadCourses fs filename e
  = fold_left (λ e1 c, V1.store c e1) (V1.parse_line <$> kept_lines contents) e.
Proof. intros H. unfold V1.LoadCourses. by rewrite H, load_lines_fold_V1. Qed.

(** C6. The loop over the lines drops exactly the empty lines. An empty
    line changes nothing; any other line, also one made of spaces only,
    stores one course, whose number is what stands before the first comma
    of the line and whose title is empty when the line has no comma. No
    line is turned away. *)
Theorem empty_lines_skipped (line : string) (e2 : V2.Env) (e1 : V1.Env) :
  (line = EmptyString →
     (V2.load_line line e2).2 = e2 ∧ (V1.load_line line e1).2 = e1)
  ∧ (line ≠ EmptyString →
     (V2.load_line line e2).2 = V2.store (V2.parse_line line) e2
     ∧ (V1.load_line line e1).2 = V1.store (V1.parse_line line) e1
     ∧ courses (V2.root (V2.bst (V2.load_line line e2).2))
       ≡ₚ V2.parse_line line :: courses (V2.root (V2.bst e2))
     ∧ V2.courseMap (V2.load_line line e2).2 !! courseNumber (V2.parse_line line)
       = Some (V2.parse_line line)
     ∧ V2.cout (V2.load_line line e2).2 = V2.cout e2
     ∧ courses (V1.root (V1.bst (V1.load_line line e1).2))
       ≡ₚ V1.parse_line line :: courses (V1.root (V1.bst e1))
     ∧ V1.cout (V1.load_line line e1).2 = V1.cout e1)
  ∧ (∃ rest, line = courseNumber (V2.parse_line line) +:+ rest
             ∧ (rest = EmptyString ∨ ∃ r, rest = String comma r))
  ∧ (∀ w1 w2, courseNumber (V2.parse_line line) ≠ w1 +:+ String comma w2)
  ∧ courseNumber (V1.parse_line line) = courseNumber (V2.parse_line line)
  ∧ courseTitle (V1.parse_line line) = courseTitle (V2.parse_line line)
  ∧ ((∀ w1 w2, line ≠ w1 +:+ String comma w2) →
     courseTitle (V2.parse_line line) = EmptyString)
  ∧ (∀ fs filename contents, fs filename = Some contents →
     V2.LoadCourses fs filename e2
     = V2.validate (fold_left (λ e c, V2.store c e)
                      (V2.parse_line <$> kept_lines contents) e2)
     ∧ V1.LoadCourses fs filename e1
       = fold_left (λ e c, V1.store c e)
           (V1.parse_line <$> kept_lines contents) e1).
Proof.
  pose proof (course_of_parts_number V2.strip_token line) as (Hn1 & Hn2 & Ht).
  rewrite <- parse_line_parts in Hn1, Hn2, Ht.
  split_and!; try done.
  - by intros ->.
  - intros Hne. destruct line as [|a line]; [done|]. simpl.
    split_and!; try done.
    + apply courses_insertNode_perm.
    + by rewrite lookup_insert_eq.
    + rewrite insertNode_addNode. apply courses_insertNode_perm.
  - by rewrite parse_line_parts, parse_line_parts_V1.
  - by rewrite parse_line_parts, parse_line_parts_V1.
  - intros fs filename contents H.
    by rewrite (LoadCourses_records _ _ _ _ H), (LoadCourses_records_V1 _ _ _ _ H).
Qed.

(** C7, as amended. After the last line the pass over the map writes one
    warning for each element, of the prerequisite list of each entry of the
    map, that is not a key of the map: as many warnings for an owner and a
    missing number as the owner's list holds that number, and none when
    there is no such element. The load itself is not affected: the courses
    stored stay in the tree and in the map, and a course with a missing
    prerequisite is still found by a lookup and still part of the
    listing. *)
Theorem validation_warns_per_reference (fs : string → option string)
    (filename contents : string) (e : V2.Env) :
  fs filename = Some contents →
  let e1 := fold_left (λ e1 c, V2.store c e1)
              (V2.parse_line <$> kept_lines contents) e in
  let e' := V2.LoadCourses fs filename e in
  let m := V2.courseMap e' in
  e' = V2.mkEnv (V2.bst e1) (V2.courseMap e1) (V2.cout e ++ dangling m)
  ∧ (∀ owner missing,
       count (Warning owner missing) (dangling m)
       = match m !! owner with
         | Some c =>
             if m !! missing is None then count missing (prerequisites c) else 0
         | None => 0
         end)
  ∧ ((∀ k c p, m !! k = Some c → p ∈ prerequisites c → is_Some (m !! p)) →
     dangling m = [])
  ∧ Forall (λ o, ∃ owner missing, o = Warning owner missing) (dangling m)
  ∧ (∀ k c p, m !! k = Some c → p ∈ prerequisites c → m !! p = None →
       V2.PrintCourseDetails k m = details c
       ∧ (catalog_ok e → c ∈ courses (V2.root (V2.bst e')))).
Proof.
  intros H e1 e' m.
  assert (He' : e' = V2.mkEnv (V2.bst e1) (V2.courseMap e1)
                       (V2.cout e ++ dangling (V2.courseMap e1))).
  { unfold e'. rewrite (LoadCourses_records _ _ _ _ H), validate_spec.
    fold e1. f_equal. unfold e1. by rewrite fold_store. }
  assert (Hm : m = V2.courseMap e1) by (unfold m; by rewrite He').
  split_and!.
  - by rewrite Hm.
  - intros owner missing. apply count_dangling.
  - apply dangling_nil.
  - apply dangling_warnings.
  - intros k c p Hk Hp Hnone. split.
    + unfold V2.PrintCourseDetails. by rewrite Hk.
    + intros Hok.
      assert (Hok' : catalog_ok e').
      { unfold e'. by apply LoadCourses_ok. }
      destruct Hok' as (_ & Hmap & _). by apply (Hmap k c).
Qed.

(** C8. A lookup of a number under which nothing was stored answers that
    the course is not found, in both variants; so does every lookup in an
    empty catalog. *)
Theorem lookup_of_absent_number (cs : list Course) (X : string) :
  X ∉ courseNumber <$> cs →
  V2.PrintCourseDetails X
    (V2.courseMap (fold_left (λ e1 c, V2.store c e1) cs V2.Env_new))
  = [CourseNotFound]
  ∧ V1.PrintCourse (fold_left V1.Insert cs V1.CourseBST_new) X
    = [CourseNotFound]
  ∧ V2.PrintCourseDetails X (V2.courseMap V2.Env_new) = [CourseNotFound]
  ∧ V1.PrintCourse (V1.bst V1.Env_new) X = [CourseNotFound].
Proof.
  intros H%with_number_absent. split_and!; try done.
  - by rewrite PrintCourseDetails_last, H.
  - by rewrite PrintCourse_first, H.
Qed.

(** C9. After any number of loads, no course of the tree of either
    variant, and no course of the map, has an empty string among its
    prerequisites. *)
Theorem stored_prerequisites_filled :
  (∀ e, V2.reachable e →
     (∀ c, c ∈ courses (V2.root (V2.bst e)) →
           Forall (λ t, t ≠ EmptyString) (prerequisites c))
     ∧ (∀ k c, V2.courseMap e !! k = Some c →
           Forall (λ t, t ≠ EmptyString) (prerequisites c)))
  ∧ (∀ e, V1.reachable e →
     ∀ c, c ∈ courses (V1.root (V1.bst e)) →
          Forall (λ t, t ≠ EmptyString) (prerequisites c)).
Proof.
  split.
  - intros e (Ho & Hm & Hp)%reachable_ok.
    rewrite Forall_forall in Hp. split; [exact Hp|].
    intros k c Hk. apply Hp. by apply (Hm k c).
  - intros e (Ho & Hp)%reachable_ok_V1.
    rewrite Forall_forall in Hp. exact Hp.
Qed.

(** C10. The validation pass changes neither the tree nor the map: after
    it both are as the loop over the lines left them, and all it adds to
    the output are warnings. *)
Theorem validation_reads_only (e : V2.Env) :
  V2.bst (V2.validate e) = V2.bst e
  ∧ V2.courseMap (V2.validate e) = V2.courseMap e
  ∧ (∃ ws, V2.cout (V2.validate e) = V2.cout e ++ ws
           ∧ Forall (λ o, ∃ owner missing, o = Warning owner missing) ws)
  ∧ (∀ fs filename contents, fs filename = Some contents →
     let after_lines :=
       getline_loop (stream_of contents) EmptyString newline V2.load_line e in
     V2.bst (V2.LoadCourses fs filename e) = V2.bst after_lines
     ∧ V2.courseMap (V2.LoadCourses fs filename e) = V2.courseMap after_lines).
Proof.
  split_and!.
  - by rewrite validate_spec.
  - by rewrite validate_spec.
  - exists (dangling (V2.courseMap e)). rewrite validate_spec.
    split; [done|apply dangling_warnings].
  - intros fs filename contents H. unfold V2.LoadCourses. rewrite H.
    by rewrite validate_spec.
Qed.

(** ** The theorems at sample inputs *)

Lemma insert_keeps_order_sample :
  (∃ l' r',
     subtree []
       (V2.root (V2.Insert
          (V2.mkBST (V2.root (fold_left V2.Insert [intro_first] V2.CourseBST_new)))
          intro_second))
     = Some (node intro_first l' r'))
  ∧ subtree []
      (V2.root (V2.Insert
         (V2.mkBST (V2.root (fold_left V2.Insert [intro_first] V2.CourseBST_new)))
         intro_second))
    = Some (node intro_first nullptr (V2.insertNode nullptr intro_second))
  ∧ subtree []
      (V1.root (V1.Insert
         (V1.mkBST (V1.root (fold_left V1.Insert [intro_first] V1.CourseBST_new)))
         intro_second))
    = Some (node intro_first nullptr (V1.addNode nullptr intro_second)).
Proof.
  destruct (insert_keeps_order [intro_first]) as (_ & _ & _ & H2 & H1).
  destruct (H2 intro_second [] intro_first nullptr nullptr eq_refl) as [Hk He].
  destruct (H1 intro_second [] intro_first nullptr nullptr eq_refl) as [_ He1].
  split; [exact Hk|]. split; [exact (proj1 (He eq_refl))|].
  exact (proj1 (He1 eq_refl)).
Defined.

Lemma listing_sorted_stable_sample :
  Forall (λ c, courseNumber c = courseNumber intro_first) [intro_second].
Proof.
  destruct (listing_sorted_stable [intro_first; intro_second; intro_first])
    as (_ & _ & _ & _ & _ & H & _).
  exact (H [] intro_first [intro_second] intro_first [] eq_refl eq_refl).
Defined.

Lemma PrintCourse_answers_first :
  last (with_number "CS100" [intro_first; intro_second]) = Some intro_second
  ∧ V1.PrintCourse
      (fold_left V1.Insert [intro_first; intro_second] V1.CourseBST_new) "CS100"
    ≠ details intro_second.
Proof. split; [done|]. vm_compute. discriminate. Qed.

Lemma lookup_last_in_map_first_in_tree_sample :
  V2.PrintCourseDetails "CS100"
    (V2.courseMap (fold_left (λ e1 c, V2.store c e1)
                     [intro_first; intro_second] V2.Env_new))
  = details intro_second
  ∧ V1.PrintCourse
      (fold_left V1.Insert [intro_first; intro_second] V1.CourseBST_new) "CS100"
    = details intro_first.
Proof.
  destruct (lookup_last_in_map_first_in_tree [intro_first; intro_second] "CS100")
    as (H2 & _ & H1).
  split; [exact (H2 intro_second eq_refl)|exact (H1 intro_first eq_refl)].
Defined.

Lemma open_failure_changes_nothing_sample :
  V2.LoadCourses sample_fs "missing.csv" V2.Env_new
  = V2.mkEnv (V2.bst V2.Env_new) (V2.courseMap V2.Env_new)
             (V2.cout V2.Env_new ++ [UnableToOpen "missing.csv"])
  ∧ V1.LoadCourses sample_fs "missing.csv" V1.Env_new
    = V1.mkEnv (V1.bst V1.Env_new) (V1.cout V1.Env_new ++ [UnableToOpen "missing.csv"]).
Proof.
  apply (open_failure_changes_nothing sample_fs "missing.csv"). reflexivity.
Defined.

Lemma spaces_without_comma (w1 w2 : string) : "  " ≠ w1 +:+ String comma w2.
Proof.
  destruct w1 as [|a [|b [|c w1]]]; cbv [String.append]; fold String.append;
    unfold comma; congruence.
Qed.

Lemma empty_lines_skipped_sample :
  (V2.load_line EmptyString V2.Env_new).2 = V2.Env_new
  ∧ (V2.load_line "  " V2.Env_new).2 = V2.store (V2.parse_line "  ") V2.Env_new
  ∧ courseTitle (V2.parse_line "  ") = EmptyString
  ∧ V1.LoadCourses sample_fs "courses.csv" V1.Env_new
    = fold_left (λ e c, V1.store c e)
        (V1.parse_line <$> kept_lines sample_csv) V1.Env_new.
Proof.
  destruct (empty_lines_skipped EmptyString V2.Env_new V1.Env_new)
    as (H0 & _).
  destruct (empty_lines_skipped "  " V2.Env_new V1.Env_new)
    as (_ & H1 & _ & _ & _ & _ & H2 & H3).
  split; [exact (proj1 (H0 eq_refl))|].
  split; [apply H1; discriminate|].
  split; [exact (H2 spaces_without_comma)|].
  exact (proj2 (H3 sample_fs "courses.csv" sample_csv eq_refl)).
Defined.

Lemma intro_csv_map :
  V2.courseMap (V2.LoadCourses sample_fs "intro.csv" V2.Env_new)
  = {[ "CS100" := intro_first ]}.
Proof. by vm_compute. Qed.

Lemma intro_csv_closed (k : string) (c : Course) (p : string) :
  V2.courseMap (V2.LoadCourses sample_fs "intro.csv" V2.Env_new) !! k = Some c →
  p ∈ prerequisites c →
  is_Some (V2.courseMap (V2.LoadCourses sample_fs "intro.csv" V2.Env_new) !! p).
Proof.
  intros Hkc Hp. rewrite intro_csv_map in Hkc.
  apply lookup_singleton_Some in Hkc as [_ E].
  rewrite <- E in Hp. by apply elem_of_nil in Hp.
Qed.

Lemma validation_warns_per_reference_sample :
  count (Warning "CS200" "CS105")
    (dangling (V2.courseMap (V2.LoadCourses sample_fs "courses.csv" V2.Env_new)))
  = 1
  ∧ V2.PrintCourseDetails "CS200"
      (V2.courseMap (V2.LoadCourses sample_fs "courses.csv" V2.Env_new))
    = details data_structures
  ∧ data_structures
    ∈ courses (V2.root (V2.bst (V2.LoadCourses sample_fs "courses.csv" V2.Env_new)))
  ∧ dangling (V2.courseMap (V2.LoadCourses sample_fs "intro.csv" V2.Env_new)) = [].
Proof.
  destruct (validation_warns_per_reference sample_fs "courses.csv" sample_csv
              V2.Env_new eq_refl) as (_ & Hc & _ & _ & Hk).
  split; [etrans; [apply Hc|]; by vm_compute|].
  destruct (Hk "CS200" data_structures "CS105") as [Hf Hl].
  { by vm_compute. }
  { right. left. }
  { by vm_compute. }
  split; [exact Hf|]. split; [exact (Hl (reachable_ok _ V2.reachable_new))|].
  exact (proj1 (proj2 (proj2 (validation_warns_per_reference sample_fs
           "intro.csv" "CS100,Intro" V2.Env_new eq_refl))) intro_csv_closed).
Defined.

(** A missing prerequisite that a line lists twice is reported twice. *)
Lemma listed_twice_warned_twice :
  let e := V2.LoadCourses sample_fs "twice.csv" V2.Env_new in
  V2.courseMap e !! "CS300" = Some algorithms
  ∧ "CS200" ∈ prerequisites algorithms
  ∧ V2.courseMap e !! "CS200" = None
  ∧ V2.cout e = [Warning "CS300" "CS200"; Warning "CS300" "CS200"]
  ∧ count (Warning "CS300" "CS200") (V2.cout e) ≠ 1.
Proof.
  split_and!; [by vm_compute|left|by vm_compute|by vm_compute|].
  vm_compute. discriminate.
Qed.

Lemma lookup_of_absent_number_sample :
  V2.PrintCourseDetails "CS999"
    (V2.courseMap (fold_left (λ e1 c, V2.store c e1) [intro_first] V2.Env_new))
  = [CourseNotFound]
  ∧ V1.PrintCourse (fold_left V1.Insert [intro_first] V1.CourseBST_new) "CS999"
    = [CourseNotFound].
Proof.
  destruct (lookup_of_absent_number [intro_first] "CS999") as (H2 & H1 & _).
  { intros H. apply list_elem_of_singleton in H. discriminate. }
  split; [exact H2|exact H1].
Defined.

Lemma stored_prerequisites_filled_sample :
  Forall (λ t, t ≠ EmptyString) (prerequisites data_structures)
  ∧ Forall (λ t, t ≠ EmptyString) (prerequisites intro_second).
Proof.
  destruct stored_prerequisites_filled as [H2 H1].
  destruct (H2 (V2.LoadCourses sample_fs "courses.csv" V2.Env_new)) as [Ht Hm].
  { apply V2.reachable_load, V2.reachable_new. }
  split.
  - apply (Hm "CS200"). by vm_compute.
  - apply (H1 (V1.LoadCourses sample_fs "courses.csv" V1.Env_new)).
    + apply V1.reachable_load, V1.reachable_new.
    + vm_compute. right. right. left.
Defined.

Lemma validation_reads_only_sample :
  V2.bst (V2.LoadCourses sample_fs "courses.csv" V2.Env_new)
  = V2.bst (getline_loop (stream_of sample_csv) EmptyString newline
              V2.load_line V2.Env_new)
  ∧ V2.courseMap (V2.LoadCourses sample_fs "courses.csv" V2.Env_new)
    = V2.courseMap (getline_loop (stream_of sample_csv) EmptyString newline
                      V2.load_line V2.Env_new).
Proof.
  destruct (validation_reads_only V2.Env_new) as (_ & _ & _ & H).
  exact (H sample_fs "courses.csv" sample_csv eq_refl).
Defined.

(** * Further properties of the program *)

(** ** What a [getline] loop reads *)

Lemma append_assoc (a b c : string) : (a +:+ b) +:+ c = a +:+ (b +:+ c).
Proof. induction a as [|x a IH]; [done|]. by rewrite !append_cons, IH. Qed.

Lemma has_char_append (ch : ascii) (a b : string) :
  has_char ch (a +:+ b) = has_char ch a || has_char ch b.
Proof.
  induction a as [|x a IH]; [done|].
  rewrite append_cons. simpl. rewrite IH. by destruct (Ascii.eqb x ch).
Qed.

Lemma extract_no_delim (delim : ascii) (s : string) :
  has_char delim (extract delim s).1 = false.
Proof.
  induction s as [|c s IH]; [done|]. simpl.
  destruct (Ascii.eqb c delim) eqn:E; [done|].
  destruct (extract delim s) as [w r]. simpl in *. by rewrite E.
Qed.

Lemma extract_append (delim : ascii) (w rest : string) :
  has_char delim w = false →
  extract delim (w +:+ String delim rest) = (w, Some rest).
Proof.
  induction w as [|c w IH].
  - intros _. change (EmptyString +:+ String delim rest) with (String delim rest).
    simpl. by rewrite Ascii.eqb_refl.
  - intros [Hc Hw]%orb_false_elim.
    change (String c w +:+ String delim rest)
      with (String c (w +:+ String delim rest)).
    simpl. by rewrite Hc, IH.
Qed.

Lemma pieces_no_delim (delim : ascii) (s : string) :
  Forall (λ w, has_char delim w = false) (pieces delim s).
Proof.
  remember (String.length s) as n eqn:Hn. revert s Hn.
  induction (lt_wf n) as [n _ IH]. intros s ->.
  rewrite pieces_extract.
  pose proof (extract_no_delim delim s) as Hw.
  destruct (extract delim s) as [w [rest|]] eqn:E; simpl in Hw.
  - constructor; [done|].
    apply (IH (String.length rest)); [by eapply extract_shorter|done].
  - destruct w; by repeat constructor.
Qed.

Lemma unsplit_pieces (delim : ascii) (s : string) :
  ∃ tail, (tail = EmptyString ∨ tail = String delim EmptyString)
          ∧ unsplit delim (pieces delim s) = s +:+ tail.
Proof.
  remember (String.length s) as n eqn:Hn. revert s Hn.
  induction (lt_wf n) as [n _ IH]. intros s ->.
  rewrite pieces_extract.
  pose proof (extract_split delim s) as Hs.
  destruct (extract delim s) as [w [rest|]] eqn:E; destruct Hs as [Hs _].
  - destruct (IH (String.length rest)) with (s := rest) as (tail & Ht & Hu);
      [by eapply extract_shorter|done|].
    exists tail. split; [done|]. simpl. rewrite Hu.
    rewrite Hs at 1. by rewrite append_assoc, append_cons.
  - rewrite append_nil_r in Hs. subst w. destruct s as [|c s].
    + exists EmptyString. by split; [left|].
    + exists (String delim EmptyString). by split; [right|].
Qed.

Lemma pieces_unsplit (delim : ascii) (ps : list string) :
  Forall (λ w, has_char delim w = false) ps →
  pieces delim (unsplit delim ps) = ps.
Proof.
  induction 1 as [|w ps Hw _ IH]; [done|].
  simpl. rewrite pieces_extract, extract_append by done. by rewrite IH.
Qed.

Lemma fold_record_piece (ps seen : list string) :
  fold_left (λ s1 w, (record_piece w s1).2) ps seen = seen ++ ps.
Proof.
  revert seen. induction ps as [|w ps IH]; intros seen; simpl.
  - by rewrite app_nil_r.
  - rewrite IH. by rewrite <- (assoc_L (++)).
Qed.

(** X1. A [while (getline(...))] loop over a stream visits the parts of the
    contents between the delimiters, in order: no part holds the delimiter,
    and the parts, each followed by the delimiter, spell the contents again
    (with a delimiter added when the contents do not end in one).
    Conversely, a text written as parts each followed by the delimiter is
    read back as those parts. *)
Theorem getline_loop_reads_the_parts (delim : ascii) (contents str : string) :
  let seen := getline_loop (stream_of contents) str delim record_piece [] in
  seen = pieces delim contents
  ∧ Forall (λ w, has_char delim w = false) seen
  ∧ (∃ tail, (tail = EmptyString ∨ tail = String delim EmptyString)
             ∧ unsplit delim seen = contents +:+ tail)
  ∧ (∀ ps, Forall (λ w, has_char delim w = false) ps →
           getline_loop (stream_of (unsplit delim ps)) str delim record_piece []
           = ps).
Proof.
  intros seen.
  assert (Hseen : ∀ c, getline_loop (stream_of c) str delim record_piece []
                       = pieces delim c).
  { intros c. by rewrite getline_loop_pieces, fold_record_piece. }
  unfold seen. rewrite Hseen. split_and!.
  - done.
  - apply pieces_no_delim.
  - apply unsplit_pieces.
  - intros ps Hps. by rewrite Hseen, pieces_unsplit.
Qed.

(** ** The two indexes between loads *)

Lemma store_agrees (c : Course) (e : V2.Env) :
  ordered (V2.root (V2.bst e)) →
  (∀ X, V2.courseMap e !! X
        = last (with_number X (courses (V2.root (V2.bst e))))) →
  ∀ X, V2.courseMap (V2.store c e) !! X
       = last (with_number X (courses (V2.root (V2.bst (V2.store c e))))).
Proof.
  intros Ho Hm X. simpl. rewrite with_number_insertNode by done.
  unfold with_number at 2. rewrite filter_cons, filter_nil.
  destruct (decide (courseNumber c = X)) as [<-|Hne].
  - by rewrite last_snoc, lookup_insert_eq.
  - by rewrite app_nil_r, lookup_insert_ne.
Qed.

Lemma fold_store_agrees (cs : list Course) (e : V2.Env) :
  ordered (V2.root (V2.bst e)) →
  (∀ X, V2.courseMap e !! X
        = last (with_number X (courses (V2.root (V2.bst e))))) →
  ∀ X, V2.courseMap (fold_left (λ e1 c, V2.store c e1) cs e) !! X
       = last (with_number X
           (courses (V2.root (V2.bst (fold_left (λ e1 c, V2.store c e1) cs e))))).
Proof.
  revert e. induction cs as [|c cs IH]; intros e Ho Hm; [done|].
  simpl. apply IH.
  - simpl. by apply ordered_insertNode.
  - by apply store_agrees.
Qed.

Lemma reachable_agrees (e : V2.Env) :
  V2.reachable e →
  ∀ X, V2.courseMap e !! X
       = last (with_number X (courses (V2.root (V2.bst e)))).
Proof.
  induction 1 as [|fs filename e Hr IH].
  - intros X. simpl. by rewrite lookup_empty.
  - unfold V2.LoadCourses. destruct (fs filename) as [contents|]; [|done].
    rewrite validate_spec, load_lines_fold. simpl.
    apply reachable_ok in Hr as (Ho & _). by apply fold_store_agrees.
Qed.

(** X2. Between loads the two ways to look a course up agree with the
    listing. In the enhanced variant a lookup finds a number exactly when
    the listing shows it, and answers with the last course that the listing
    shows under it; in the original variant the lookup answers with the
    first one. *)
Theorem listing_and_lookup_agree :
  (∀ e X, V2.reachable e →
     V2.PrintCourseDetails X (V2.courseMap e)
     = match last (with_number X (courses (V2.root (V2.bst e)))) with
       | Some c => details c
       | None => [CourseNotFound]
       end)
  ∧ (∀ e X, V1.reachable e →
     V1.PrintCourse (V1.bst e) X
     = match head (with_number X (courses (V1.root (V1.bst e)))) with
       | Some c => details c
       | None => [CourseNotFound]
       end).
Proof.
  split.
  - intros e X Hr. unfold V2.PrintCourseDetails.
    rewrite (reachable_agrees e Hr X). by destruct (last _).
  - intros e X (Ho & _)%reachable_ok_V1. unfold V1.PrintCourse.
    pose proof (search_first (V1.root (V1.bst e)) X Ho) as H.
    destruct (V1.search _ X) as [|c l r]; by rewrite H.
Qed.

(** ** Loading more than once *)

(** X3. A load of a readable file adds to what the catalog holds: the tree
    keeps its courses and gains one for each non-empty line, placed after
    the courses of the same number that were there before; the map keeps
    its entries except under the numbers of the file, where the last line
    of that number wins. The tree of the original variant grows in the same
    way. *)
Theorem load_adds_to_the_catalog (fs : string → option string)
    (filename contents : string) (e : V2.Env) (e1 : V1.Env) :
  fs filename = Some contents →
  ordered (V2.root (V2.bst e)) →
  ordered (V1.root (V1.bst e1)) →
  let recs := V2.parse_line <$> kept_lines contents in
  let recs1 := V1.parse_line <$> kept_lines contents in
  let e' := V2.LoadCourses fs filename e in
  let e1' := V1.LoadCourses fs filename e1 in
  courses (V2.root (V2.bst e')) ≡ₚ courses (V2.root (V2.bst e)) ++ recs
  ∧ (∀ X, with_number X (courses (V2.root (V2.bst e')))
          = with_number X (courses (V2.root (V2.bst e))) ++ with_number X recs)
  ∧ (∀ X, V2.courseMap e' !! X
          = match last (with_number X recs) with
            | Some c => Some c
            | None => V2.courseMap e !! X
            end)
  ∧ courses (V1.root (V1.bst e1')) ≡ₚ courses (V1.root (V1.bst e1)) ++ recs1
  ∧ (∀ X, with_number X (courses (V1.root (V1.bst e1')))
          = with_number X (courses (V1.root (V1.bst e1)))
            ++ with_number X recs1).
Proof.
  intros H Ho Ho1 recs recs1 e' e1'.
  unfold e', e1'.
  rewrite (LoadCourses_records _ _ _ _ H), (LoadCourses_records_V1 _ _ _ _ H).
  rewrite validate_spec, fold_store, fold_store_V1. simpl.
  rewrite root_fold_Insert, root_fold_Insert_V1. fold recs recs1.
  split_and!.
  - apply courses_fold_insertNode_perm.
  - intros X. by apply with_number_fold_insertNode.
  - intros X. apply lookup_fold_insert.
  - apply courses_fold_insertNode_perm.
  - intros X. by apply with_number_fold_insertNode.
Qed.

Lemma fold_insert_twice (cs : list Course) (m : gmap string Course) :
  fold_left (λ m1 c, <[courseNumber c := c]> m1) cs
    (fold_left (λ m1 c, <[courseNumber c := c]> m1) cs m)
  = fold_left (λ m1 c, <[courseNumber c := c]> m1) cs m.
Proof.
  apply map_eq. intros X. rewrite !lookup_fold_insert.
  by destruct (last _).
Qed.

(** X4. Loading the same readable file a second time leaves the map as the
    first load left it and writes the same warnings once more, while the
    tree gains a second node for every non-empty line of the file. *)
Theorem reload_same_file (fs : string → option string)
    (filename contents : string) (e : V2.Env) :
  fs filename = Some contents →
  let e1 := V2.LoadCourses fs filename e in
  let e2 := V2.LoadCourses fs filename e1 in
  V2.courseMap e2 = V2.courseMap e1
  ∧ V2.cout e1 = V2.cout e ++ dangling (V2.courseMap e1)
  ∧ V2.cout e2 = V2.cout e1 ++ dangling (V2.courseMap e1)
  ∧ length (courses (V2.root (V2.bst e1)))
    = length (courses (V2.root (V2.bst e))) + length (kept_lines contents)
  ∧ length (courses (V2.root (V2.bst e2)))
    = length (courses (V2.root (V2.bst e))) + 2 * length (kept_lines contents).
Proof.
  intros H e1 e2.
  assert (H1 : e1 = V2.validate (fold_left (λ e1 c, V2.store c e1)
                  (V2.parse_line <$> kept_lines contents) e)).
  { unfold e1. apply LoadCourses_records, H. }
  assert (H2 : e2 = V2.validate (fold_left (λ e1 c, V2.store c e1)
                  (V2.parse_line <$> kept_lines contents) e1)).
  { unfold e2. apply LoadCourses_records, H. }
  rewrite validate_spec, fold_store in H1, H2.
  assert (Hm : V2.courseMap e2 = V2.courseMap e1).
  { rewrite H2. simpl. rewrite H1 at 1 2. simpl. apply fold_insert_twice. }
  assert (Hl1 : length (courses (V2.root (V2.bst e1)))
    = length (courses (V2.root (V2.bst e))) + length (kept_lines contents)).
  { rewrite H1. simpl. rewrite root_fold_Insert, courses_fold_insertNode_perm.
    by rewrite length_app, length_fmap. }
  split_and!.
  - exact Hm.
  - rewrite H1 at 1. simpl. by rewrite H1.
  - rewrite <- Hm. by rewrite H2.
  - exact Hl1.
  - rewrite H2. simpl. rewrite root_fold_Insert, courses_fold_insertNode_perm.
    rewrite length_app, length_fmap, Hl1. lia.
Qed.

(** ** The shape of the tree *)

Lemma insertNode_at_the_end (t : Node) (c : Course) :
  right_chain t →
  Forall (λ d, number_le d c) (courses t) →
  right_chain (V2.insertNode t c)
  ∧ courses (V2.insertNode t c) = courses t ++ [c]
  ∧ height (V2.insertNode t c) = S (height t).
Proof.
  induction t as [|d l _ r IHr]; [done|].
  intros [-> Hr] Hle. simpl in Hle. apply Forall_cons in Hle as [Hd Hle].
  simpl. apply ltb_false_leb in Hd. rewrite Hd. simpl.
  destruct (IHr Hr Hle) as (IH1 & IH2 & IH3).
  split_and!; [done|done|by rewrite IH2|by rewrite IH3].
Qed.

Lemma height_insertNode (t : Node) (c : Course) :
  height (V2.insertNode t c) ≤ S (height t).
Proof.
  induction t as [|d l IHl r IHr]; simpl; [lia|].
  destruct (String.ltb _ _); simpl; lia.
Qed.

(** X5. The tree is never rebalanced. When the courses arrive in
    non-decreasing order of number, every node is the right child of the
    one before: no node has a left child, the listing repeats the input and
    the height of the tree is the number of courses. In any order the
    height is at most the number of courses. *)
Theorem sorted_input_gives_a_chain (cs : list Course) :
  let t := V2.root (fold_left V2.Insert cs V2.CourseBST_new) in
  height t ≤ length cs
  ∧ V1.root (fold_left V1.Insert cs V1.CourseBST_new) = t
  ∧ (StronglySorted number_le cs →
     right_chain t ∧ courses t = cs ∧ height t = length cs).
Proof.
  intros t. unfold t. clear t.
  rewrite root_fold_Insert, root_fold_Insert_V1. simpl.
  split_and!; [|done|].
  - induction cs as [|c cs IH] using rev_ind; [simpl; lia|].
    rewrite fold_left_app, length_app. simpl.
    pose proof (height_insertNode (fold_left V2.insertNode cs nullptr) c). lia.
  - induction cs as [|c cs IH] using rev_ind; [done|].
    intros Hs. apply StronglySorted_app in Hs as (Hle & Hs & _).
    destruct (IH Hs) as (IH1 & IH2 & IH3).
    rewrite fold_left_app. simpl.
    destruct (insertNode_at_the_end (fold_left V2.insertNode cs nullptr) c)
      as (H1 & H2 & H3); [done| |].
    + rewrite IH2. apply Forall_forall. intros d Hd. apply Hle; [done|by left].
    + split_and!; [done|by rewrite H2, IH2|].
      rewrite H3, IH3, length_app. simpl. lia.
Qed.

(** ** The fields that are stored *)

Lemma back_cons (c : ascii) (s : string) :
  V1.back (String c s) = if s is EmptyString then Some c else V1.back s.
Proof. by destruct s. Qed.

Lemma back_snoc (s : string) (c : ascii) :
  V1.back (s +:+ String c EmptyString) = Some c.
Proof.
  induction s as [|x s IH]; [done|].
  rewrite append_cons, back_cons, IH. by destruct s.
Qed.

Lemma pop_back_snoc (s : string) (c : ascii) :
  V1.pop_back (s +:+ String c EmptyString) = s.
Proof.
  induction s as [|x s IH]; [done|].
  rewrite append_cons. simpl. rewrite IH. by destruct s.
Qed.

Lemma trim_left_front (s : string) : V1.front (trim_left s) ≠ Some space.
Proof.
  induction s as [|c s IH]; simpl; [done|].
  destruct (Ascii.eqb_spec c space) as [->|Hne]; [done|].
  simpl. congruence.
Qed.

Lemma trim_left_has_char (ch : ascii) (s : string) :
  has_char ch s = false → has_char ch (trim_left s) = false.
Proof.
  induction s as [|c s IH]; simpl; [done|].
  intros [Hc Hs]%orb_false_elim. destruct (Ascii.eqb c space); [auto|].
  simpl. by rewrite Hc, Hs.
Qed.

Lemma trim_left_id (s : string) :
  V1.front s ≠ Some space → trim_left s = s.
Proof.
  destruct s as [|c s]; simpl; [done|].
  destruct (Ascii.eqb_spec c space) as [->|Hne]; [done|done].
Qed.

Lemma trim_right_back (s : string) : V1.back (trim_right s) ≠ Some space.
Proof.
  induction s as [|c s IH]; simpl; [done|].
  destruct (trim_right s) as [|c' t].
  - destruct (Ascii.eqb_spec c space) as [->|Hne]; [done|].
    simpl. congruence.
  - by rewrite back_cons.
Qed.

Lemma trim_right_front (s : string) :
  V1.front s ≠ Some space → V1.front (trim_right s) ≠ Some space.
Proof.
  destruct s as [|c s]; simpl; [done|]. intros Hc.
  destruct (trim_right s).
  - destruct (Ascii.eqb_spec c space) as [->|Hne]; [done|done].
  - done.
Qed.

Lemma trim_right_has_char (ch : ascii) (s : string) :
  has_char ch s = false → has_char ch (trim_right s) = false.
Proof.
  induction s as [|c s IH]; simpl; [done|].
  intros [Hc Hs]%orb_false_elim. specialize (IH Hs).
  destruct (trim_right s).
  - destruct (Ascii.eqb c space); [done|]. simpl. by rewrite Hc.
  - simpl in *. by rewrite Hc, IH.
Qed.

Lemma trim_right_id (s : string) :
  V1.back s ≠ Some space → trim_right s = s.
Proof.
  induction s as [|c s IH]; [done|].
  rewrite back_cons. simpl. destruct s as [|c' s'].
  - simpl. intros Hc. destruct (Ascii.eqb_spec c space) as [->|Hne]; [done|done].
  - intros Hb. rewrite IH by done. done.
Qed.

Lemma trim_right_snoc_space (s : string) :
  trim_right (s +:+ String space EmptyString) = trim_right s.
Proof.
  induction s as [|c s IH]; [done|].
  rewrite append_cons. simpl. by rewrite IH.
Qed.

Lemma trim_spaces_clean (w : string) :
  has_char comma w = false → trim_spaces w ≠ EmptyString →
  clean_token (trim_spaces w).
Proof.
  intros Hw Hne. unfold clean_token, trim_spaces in *. split_and!.
  - done.
  - apply trim_right_front, trim_left_front.
  - apply trim_right_back.
  - by apply trim_right_has_char, trim_left_has_char.
Qed.

Lemma nth_no_delim (delim : ascii) (n : nat) (ps : list string) :
  Forall (λ w, has_char delim w = false) ps →
  has_char delim (nth n ps EmptyString) = false.
Proof.
  intros H. revert n. induction H as [|w ps Hw _ IH]; intros [|n]; simpl; auto.
Qed.

Lemma parse_line_clean (line : string) : clean_course (V2.parse_line line).
Proof.
  rewrite parse_line_trims. pose proof (pieces_no_delim comma line) as Hp.
  unfold clean_course, course_of_parts. simpl. split_and!.
  - by apply nth_no_delim.
  - by apply nth_no_delim.
  - apply Forall_forall. intros t [Ht Hin]%list_elem_of_filter.
    apply list_elem_of_fmap in Hin as (w & -> & Hw).
    apply trim_spaces_clean; [|done].
    rewrite Forall_forall in Hp. apply Hp. by eapply subseteq_drop.
Qed.

Lemma strip_token_V1_has_char (ch : ascii) (t : string) :
  has_char ch t = false → has_char ch (V1.strip_token t) = false.
Proof.
  assert (Hpop : ∀ s, has_char ch s = false → has_char ch (V1.pop_back s) = false).
  { induction s as [|c s IH]; [done|]. simpl.
    intros [Hc Hs]%orb_false_elim. destruct s; [done|].
    simpl in *. rewrite Hc. simpl. by apply IH. }
  intros Ht. unfold V1.strip_token.
  set (t1 := if V1.front t is Some c
             then (if Ascii.eqb c space then V1.erase_begin t else t) else t).
  assert (Ht1 : has_char ch t1 = false).
  { unfold t1. destruct t as [|c t]; [done|]. simpl in *.
    apply orb_false_elim in Ht as [Hc Ht].
    destruct (Ascii.eqb c space); simpl; [done|]. by rewrite Hc. }
  destruct (V1.back t1) as [c|]; [|done].
  destruct (Ascii.eqb c space); auto.
Qed.

Lemma parse_line_comma_free_V1 (line : string) :
  comma_free_course (V1.parse_line line).
Proof.
  rewrite parse_line_parts_V1. pose proof (pieces_no_delim comma line) as Hp.
  unfold comma_free_course, course_of_parts. simpl. split_and!.
  - by apply nth_no_delim.
  - by apply nth_no_delim.
  - apply Forall_forall. intros t [Ht Hin]%list_elem_of_filter.
    apply list_elem_of_fmap in Hin as (w & -> & Hw).
    apply strip_token_V1_has_char.
    rewrite Forall_forall in Hp. apply Hp. by eapply subseteq_drop.
Qed.

Lemma reachable_courses (P : Course → Prop) (e : V2.Env) :
  (∀ line, P (V2.parse_line line)) → V2.reachable e →
  Forall P (courses (V2.root (V2.bst e))).
Proof.
  intros HP. induction 1 as [|fs filename e _ IH]; [constructor|].
  unfold V2.LoadCourses. destruct (fs filename) as [contents|]; [|done].
  rewrite validate_spec, load_lines_fold, fold_store. simpl.
  rewrite root_fold_Insert, courses_fold_insertNode_perm.
  apply Forall_app. split; [done|].
  apply Forall_fmap, Forall_forall. intros l _. apply HP.
Qed.

Lemma reachable_courses_V1 (P : Course → Prop) (e : V1.Env) :
  (∀ line, P (V1.parse_line line)) → V1.reachable e →
  Forall P (courses (V1.root (V1.bst e))).
Proof.
  intros HP. induction 1 as [|fs filename e _ IH]; [constructor|].
  unfold V1.LoadCourses. destruct (fs filename) as [contents|]; [|done].
  rewrite load_lines_fold_V1, fold_store_V1. simpl.
  rewrite root_fold_Insert_V1, courses_fold_insertNode_perm.
  apply Forall_app. split; [done|].
  apply Forall_fmap, Forall_forall. intros l _. apply HP.
Qed.

(** X6. After any number of loads, no field of a stored course holds a
    comma, in either variant; in the enhanced variant every stored
    prerequisite is, besides, not empty and has no space at its start or at
    its end. *)
Theorem stored_fields_are_clean :
  (∀ e, V2.reachable e →
     Forall clean_course (courses (V2.root (V2.bst e)))
     ∧ (∀ k c, V2.courseMap e !! k = Some c → clean_course c))
  ∧ (∀ e, V1.reachable e →
     Forall comma_free_course (courses (V1.root (V1.bst e)))).
Proof.
  split.
  - intros e Hr.
    pose proof (reachable_courses clean_course e parse_line_clean Hr) as Hc.
    split; [done|]. intros k c Hk.
    apply reachable_ok in Hr as (_ & Hm & _).
    rewrite Forall_forall in Hc. apply Hc. by apply (Hm k c).
  - intros e Hr.
    exact (reachable_courses_V1 comma_free_course e parse_line_comma_free_V1 Hr).
Qed.

(** X7. The original variant removes one space at most on each side of a
    token. On a token that has no more than that around a core without
    spaces at its ends, it leaves the core, as the enhanced variant does. *)
Theorem one_space_each_side_is_stripped (core : string) (before after : bool) :
  V1.front core ≠ Some space →
  V1.back core ≠ Some space →
  V1.strip_token (pad before +:+ core +:+ pad after) = core
  ∧ V2.strip_token (pad before +:+ core +:+ pad after) = core.
Proof.
  intros Hf Hb.
  assert (Hafter : ∀ a, (if V1.back (core +:+ pad a) is Some c
            then (if Ascii.eqb c space then V1.pop_back (core +:+ pad a)
                  else core +:+ pad a)
            else core +:+ pad a) = core).
  { intros [|]; simpl.
    - by rewrite back_snoc, pop_back_snoc.
    - rewrite append_nil_r. destruct (V1.back core) as [c|] eqn:E; [|done].
      destruct (Ascii.eqb_spec c space) as [->|]; [done|done]. }
  assert (Hcore : V1.front (core +:+ pad after) = Some space →
                  core = EmptyString ∧ after = true).
  { destruct core as [|c core].
    - destruct after; [done|done].
    - rewrite append_cons. simpl. intros [= ->]. done. }
  split.
  - unfold V1.strip_token. destruct before.
    + change (pad true +:+ core +:+ pad after)
        with (String space (core +:+ pad after)).
      simpl. apply Hafter.
    + change (pad false +:+ core +:+ pad after) with (core +:+ pad after).
      destruct (V1.front (core +:+ pad after)) as [c|] eqn:E.
      * destruct (Ascii.eqb_spec c space) as [->|Hne]; [|apply Hafter].
        by destruct (Hcore eq_refl) as [-> ->].
      * apply Hafter.
  - rewrite strip_token_trim. unfold trim_spaces.
    assert (trim_left (pad before +:+ core +:+ pad after)
            = trim_left (core +:+ pad after)) as ->.
    { destruct before; [|done].
      change (pad true +:+ core +:+ pad after)
        with (String space (core +:+ pad after)). done. }
    assert (trim_right (trim_left (core +:+ pad after)) = trim_right core) as ->.
    { destruct (V1.front (core +:+ pad after)) as [c|] eqn:E.
      - destruct (Ascii.eqb_spec c space) as [->|Hne].
        + by destruct (Hcore eq_refl) as [-> ->].
        + rewrite trim_left_id by (rewrite E; congruence).
          destruct after; simpl.
          * apply trim_right_snoc_space.
          * by rewrite append_nil_r.
      - rewrite trim_left_id by (by rewrite E).
        destruct after; simpl.
        + apply trim_right_snoc_space.
        + by rewrite append_nil_r. }
    by apply trim_right_id.
Qed.

(** ** Writing courses out and reading them back *)

Lemma extract_all (delim : ascii) (w : string) :
  has_char delim w = false → extract delim w = (w, None).
Proof.
  induction w as [|c w IH]; [done|]. simpl.
  intros [Hc Hw]%orb_false_elim. by rewrite Hc, IH.
Qed.

Lemma pieces_single (delim : ascii) (w : string) :
  has_char delim w = false →
  pieces delim w = if w is EmptyString then [] else [w].
Proof. intros H. by rewrite pieces_extract, extract_all. Qed.

Lemma pieces_cons (delim : ascii) (w rest : string) :
  has_char delim w = false →
  pieces delim (w +:+ String delim rest) = w :: pieces delim rest.
Proof. intros H. by rewrite pieces_extract, extract_append. Qed.

Lemma pieces_prerequisites (p : string) (ps : list string) :
  Forall clean_token (p :: ps) →
  pieces comma (p +:+ fold_right (λ q acc, String comma (q +:+ acc)) EmptyString ps)
  = p :: ps.
Proof.
  revert p. induction ps as [|q ps IH]; intros p Hc.
  - simpl. rewrite append_nil_r.
    apply Forall_cons in Hc as [(Hne & _ & _ & Hp) _].
    rewrite pieces_single by done. by destruct p.
  - apply Forall_cons in Hc as [(Hne & _ & _ & Hp) Hc].
    simpl. rewrite pieces_cons by done. by rewrite IH.
Qed.

Lemma course_of_parts_format (strip : string → string) (c : Course) :
  clean_course c →
  (∀ t, clean_token t → strip t = t) →
  course_of_parts strip (pieces comma (format_course c)) = c.
Proof.
  intros (Hn & Ht & Hp) Hstrip. destruct c as [number title prereqs].
  unfold format_course. simpl in *. rewrite pieces_cons by done.
  assert (Hkeep : filter (λ t, t ≠ EmptyString) (strip <$> prereqs) = prereqs).
  { clear -Hp Hstrip. induction prereqs as [|p ps IH]; [done|].
    apply Forall_cons in Hp as [Hc Hps].
    rewrite fmap_cons, filter_cons, (Hstrip p Hc), (IH Hps).
    destruct Hc as (Hne & _). by rewrite decide_True. }
  destruct prereqs as [|p ps].
  - simpl. rewrite append_nil_r, pieces_single by done.
    unfold course_of_parts. by destruct title.
  - simpl. rewrite pieces_cons by done.
    rewrite (pieces_prerequisites p ps Hp).
    unfold course_of_parts. cbn [nth drop]. by rewrite Hkeep.
Qed.

Lemma trim_spaces_id (t : string) : clean_token t → trim_spaces t = t.
Proof.
  intros (_ & Hf & Hb & _). unfold trim_spaces.
  rewrite trim_left_id by done. by apply trim_right_id.
Qed.

Lemma strip_token_V1_id (t : string) : clean_token t → V1.strip_token t = t.
Proof.
  intros (_ & Hf & Hb & _). unfold V1.strip_token.
  assert ((if V1.front t is Some c
           then (if Ascii.eqb c space then V1.erase_begin t else t)
           else t) = t) as ->.
  { destruct (V1.front t) as [c|]; [|done].
    by destruct (Ascii.eqb_spec c space) as [->|]. }
  destruct (V1.back t) as [c|]; [|done].
  by destruct (Ascii.eqb_spec c space) as [->|].
Qed.

Lemma parse_line_format (c : Course) :
  clean_course c →
  V2.parse_line (format_course c) = c ∧ V1.parse_line (format_course c) = c.
Proof.
  intros Hc. rewrite parse_line_trims, parse_line_parts_V1. split.
  - apply course_of_parts_format; [done|apply trim_spaces_id].
  - apply course_of_parts_format; [done|apply strip_token_V1_id].
Qed.

Lemma format_course_one_line (c : Course) :
  well_formed c →
  has_char newline (format_course c) = false
  ∧ format_course c ≠ EmptyString.
Proof.
  intros (_ & Hn & Ht & Hp). split.
  - unfold format_course. rewrite has_char_append, Hn. simpl.
    rewrite has_char_append, Ht. simpl.
    induction Hp as [|p ps Hp _ IH]; [done|].
    simpl. by rewrite has_char_append, Hp, IH.
  - unfold format_course. by destruct (courseNumber c).
Qed.

Lemma kept_lines_format (cs : list Course) :
  Forall well_formed cs →
  kept_lines (unsplit newline (format_course <$> cs)) = format_course <$> cs.
Proof.
  intros Hcs. unfold kept_lines. rewrite pieces_unsplit.
  - induction Hcs as [|c cs Hc _ IH]; [done|].
    rewrite fmap_cons, filter_cons, IH.
    destruct (format_course_one_line c Hc) as [_ Hne].
    by rewrite decide_True.
  - apply Forall_fmap. eapply Forall_impl; [exact Hcs|].
    intros c Hc. by apply format_course_one_line.
Qed.

Lemma parse_format_all (cs : list Course) :
  Forall well_formed cs →
  V2.parse_line <$> (format_course <$> cs) = cs
  ∧ V1.parse_line <$> (format_course <$> cs) = cs.
Proof.
  induction 1 as [|c cs [Hc _] _ [IH2 IH1]]; [done|].
  rewrite !fmap_cons, IH2, IH1.
  destruct (parse_line_format c Hc) as [-> ->]. done.
Qed.

(** X8. Reading is the inverse of writing. A course whose fields hold no
    comma and whose prerequisites are non-empty and have no space at either
    end is parsed back, by both variants, from the line that lists its
    fields with commas between them. A file of such lines, one for each
    course of a list and none of them holding a line end, loads into the
    tree built by inserting the courses in turn, and into the map built by
    storing them in turn. *)
Theorem written_courses_are_read_back (fs : string → option string)
    (filename : string) (cs : list Course) :
  Forall well_formed cs →
  fs filename = Some (unsplit newline (format_course <$> cs)) →
  (∀ c, c ∈ cs →
        V2.parse_line (format_course c) = c
        ∧ V1.parse_line (format_course c) = c)
  ∧ V2.bst (V2.LoadCourses fs filename V2.Env_new)
    = fold_left V2.Insert cs V2.CourseBST_new
  ∧ V2.courseMap (V2.LoadCourses fs filename V2.Env_new)
    = fold_left (λ m c, <[courseNumber c := c]> m) cs ∅
  ∧ V1.bst (V1.LoadCourses fs filename V1.Env_new)
    = fold_left V1.Insert cs V1.CourseBST_new.
Proof.
  intros Hcs Hfs.
  rewrite (LoadCourses_records _ _ _ _ Hfs), (LoadCourses_records_V1 _ _ _ _ Hfs).
  rewrite validate_spec, fold_store, fold_store_V1, kept_lines_format by done.
  destruct (parse_format_all cs Hcs) as [-> ->]. simpl.
  split_and!; try done.
  intros c Hc. rewrite Forall_forall in Hcs.
  destruct (Hcs c Hc) as [Hclean _]. by apply parse_line_format.
Qed.

(** ** The text of a lookup *)

Lemma concat_cons_cons (sep x y : string) (l : list string) :
  String.concat sep (x :: y :: l) = x +:+ sep +:+ String.concat sep (y :: l).
Proof. done. Qed.

Lemma prerequisites_loop_concat (fuel i : nat) (prereqs : list string)
    (out : string) :
  length prereqs - i ≤ fuel →
  prerequisites_loop fuel i prereqs out
  = out +:+ String.concat ", " (drop i prereqs).
Proof.
  revert i out. induction fuel as [|fuel IH]; intros i out Hf.
  - simpl. rewrite drop_ge by lia. by rewrite append_nil_r.
  - simpl. destruct (Nat.ltb_spec i (length prereqs)) as [Hi|Hi].
    + destruct (lookup_lt_is_Some_2 prereqs i Hi) as [x Hx].
      rewrite (drop_S _ _ _ Hx), (nth_lookup_Some _ _ _ _ Hx).
      rewrite IH by lia.
      destruct (Nat.ltb_spec i (length prereqs - 1)) as [Hj|Hj].
      * destruct (lookup_lt_is_Some_2 prereqs (S i)) as [y Hy]; [lia|].
        rewrite (drop_S _ _ _ Hy), concat_cons_cons.
        by rewrite !append_assoc.
      * rewrite drop_ge by lia. simpl. by rewrite append_nil_r.
    + rewrite drop_ge by lia. by rewrite append_nil_r.
Qed.

(** X9. The text of a lookup that finds a course: the number, a comma and
    a space, and the title on one line; on the next the word Prerequisites,
    a colon and a space, followed by None when the course has no
    prerequisites, and else by the prerequisites in their order, with a
    comma and a space between two of them and nothing after the last. *)
Theorem details_text_lists_prerequisites (c : Course) :
  details_text c
  = courseNumber c +:+ ", " +:+ courseTitle c +:+ nl
    +:+ "Prerequisites: "
    +:+ (if prerequisites c is [] then "None"
         else String.concat ", " (prerequisites c))
    +:+ nl.
Proof.
  unfold details_text. destruct (prerequisites c) as [|p ps] eqn:E.
  - by rewrite !append_assoc.
  - rewrite prerequisites_loop_concat by lia. rewrite drop_0.
    by rewrite !append_assoc.
Qed.

(** ** The menu *)

Lemma toupper_not_lower (c : ascii) : is_lower (toupper c) = false.
Proof. destruct c as [[] [] [] [] [] [] [] []]; reflexivity. Qed.

Lemma toupper_id (c : ascii) : is_lower c = false → toupper c = c.
Proof. unfold toupper. by intros ->. Qed.

Lemma transform_toupper_not_lower (s : string) :
  has_lower (transform_toupper s) = false.
Proof.
  induction s as [|c s IH]; [done|]. simpl.
  by rewrite toupper_not_lower, IH.
Qed.

Lemma transform_toupper_id (s : string) :
  has_lower s = false → transform_toupper s = s.
Proof.
  induction s as [|c s IH]; [done|]. simpl.
  intros [Hc Hs]%orb_false_elim. by rewrite toupper_id, IH.
Qed.

Lemma LoadCourses_same_indexes fs filename (e1 e2 : V2.Env) :
  V2.bst e1 = V2.bst e2 → V2.courseMap e1 = V2.courseMap e2 →
  V2.bst (V2.LoadCourses fs filename e1) = V2.bst (V2.LoadCourses fs filename e2)
  ∧ V2.courseMap (V2.LoadCourses fs filename e1)
    = V2.courseMap (V2.LoadCourses fs filename e2).
Proof.
  intros Hb Hm. unfold V2.LoadCourses.
  destruct (fs filename) as [contents|]; [|done].
  rewrite !validate_spec, !load_lines_fold, !fold_store. simpl.
  by rewrite Hb, Hm.
Qed.

Lemma LoadCourses_same_tree_V1 fs filename (e1 e2 : V1.Env) :
  V1.bst e1 = V1.bst e2 →
  V1.bst (V1.LoadCourses fs filename e1) = V1.bst (V1.LoadCourses fs filename e2).
Proof.
  intros Hb. unfold V1.LoadCourses.
  destruct (fs filename) as [contents|]; [|done].
  rewrite !load_lines_fold_V1, !fold_store_V1. simpl. by rewrite Hb.
Qed.

Lemma LoadCourses_cout_unopened fs filename (e : V2.Env) :
  fs filename = None →
  V2.LoadCourses fs filename e
  = V2.mkEnv (V2.bst e) (V2.courseMap e) (V2.cout e ++ [UnableToOpen filename]).
Proof. intros H. unfold V2.LoadCourses. by rewrite H. Qed.

(** X10. The flag [dataLoaded] of the enhanced [main]. As long as it is
    not set, the tree and the map are empty, nothing of the catalog has
    been shown, and the choices 2 and 3 only show the request to load data
    first. Choice 1 sets it whether or not the file could be opened: when
    it could not, the tree and the map stay as they were and the message of
    the failure is followed by the message that the data was loaded. Once
    set, the flag stays set. *)
Theorem dataLoaded_gate :
  (∀ st, Main2.reachable st → Main2.dataLoaded st = false →
     Main2.bst st = V2.CourseBST_new
     ∧ Main2.courseMap st = ∅
     ∧ Forall (λ x, ∀ o, x ≠ Core o) (Main2.cout st))
  ∧ (∀ fs read cin st st',
       Main2.dataLoaded st = true →
       Main2.loop_body fs read cin st = Main2.Continue st' →
       Main2.dataLoaded st' = true)
  ∧ (∀ fs cin st, ∃ st',
       Main2.loop_body fs (Some 1%Z) cin st = Main2.Continue st'
       ∧ Main2.dataLoaded st' = true
       ∧ (fs (Main2.filename st') = None →
          Main2.bst st' = Main2.bst st
          ∧ Main2.courseMap st' = Main2.courseMap st
          ∧ Main2.cout st'
            = Main2.cout st ++ Main2.menu
              ++ [Said "Enter file name (press Enter for default): ";
                  Core (UnableToOpen (Main2.filename st'));
                  Said ("Course data loaded successfully." +:+ nl)]))
  ∧ (∀ fs cin st, Main2.dataLoaded st = false →
       Main2.loop_body fs (Some 2%Z) cin st
       = Main2.Continue (Main2.say Main2.not_loaded (Main2.say Main2.menu st))
       ∧ Main2.loop_body fs (Some 3%Z) cin st
         = Main2.Continue (Main2.say Main2.not_loaded (Main2.say Main2.menu st))).
Proof.
  split_and!.
  - induction 1 as [|fs read cin st st' Hr IH Hstep].
    + intros _. split_and!; [done|done|]. repeat constructor. done.
    + intros Hd. unfold Main2.loop_body in Hstep.
      assert (Hmenu : Forall (λ x, ∀ o, x ≠ Core o) Main2.menu)
        by (repeat constructor; done).
      destruct read as [choice|]; cycle 1.
      { injection Hstep as <-. simpl in *. destruct (IH Hd) as (? & ? & ?).
        split_and!; [done|done|]. rewrite !Forall_app. split_and!; [done|done|].
        repeat constructor. done. }
      destruct (choice =? 1)%Z.
      { destruct (getline _ _ _). injection Hstep as <-. done. }
      destruct (choice =? 2)%Z.
      { simpl in Hstep. destruct (Main2.dataLoaded st) eqn:E.
        - injection Hstep as <-. simpl in Hd. congruence.
        - injection Hstep as <-. simpl. destruct (IH eq_refl) as (? & ? & ?).
          split_and!; [done|done|]. rewrite !Forall_app. split_and!; [done|done|].
          repeat constructor. done. }
      destruct (choice =? 3)%Z.
      { simpl in Hstep. destruct (Main2.dataLoaded st) eqn:E.
        - simpl in Hstep. destruct (getline _ _ _). injection Hstep as <-.
          simpl in Hd. congruence.
        - injection Hstep as <-. simpl. destruct (IH eq_refl) as (? & ? & ?).
          split_and!; [done|done|]. rewrite !Forall_app. split_and!; [done|done|].
          repeat constructor. done. }
      destruct (choice =? 9)%Z; [done|].
      injection Hstep as <-. simpl in *. destruct (IH Hd) as (? & ? & ?).
      split_and!; [done|done|]. rewrite !Forall_app. split_and!; [done|done|].
      repeat constructor. done.
  - intros fs read cin st st' Hd Hstep. unfold Main2.loop_body in Hstep.
    destruct read as [choice|]; [|by injection Hstep as <-].
    destruct (choice =? 1)%Z.
    { destruct (getline _ _ _). by injection Hstep as <-. }
    destruct (choice =? 2)%Z.
    { simpl in Hstep. rewrite Hd in Hstep. by injection Hstep as <-. }
    destruct (choice =? 3)%Z.
    { simpl in Hstep. rewrite Hd in Hstep. simpl in Hstep.
      destruct (getline _ _ _). by injection Hstep as <-. }
    destruct (choice =? 9)%Z; [done|]. by injection Hstep as <-.
  - intros fs cin st. unfold Main2.loop_body. simpl.
    destruct (getline cin (Main2.filename st) newline) as [cin1 filename1].
    eexists. split; [done|]. simpl. split; [done|].
    intros Hnone. rewrite (LoadCourses_cout_unopened _ _ _ Hnone). simpl.
    split_and!; [done|done|]. by rewrite <- !(assoc_L (++)).
  - intros fs cin st Hd. unfold Main2.loop_body. simpl. by rewrite Hd.
Qed.

(** X11. Whatever is typed at the menu, the tree and the map that [main]
    holds are those that some sequence of [LoadCourses] calls builds from
    the empty catalog: listing and looking up never change them, and what
    is proved of the states between loads holds at every turn of the
    menu. *)
Theorem menu_keeps_a_loaded_catalog :
  (∀ st, Main2.reachable st →
     ∃ e, V2.reachable e
          ∧ V2.bst e = Main2.bst st ∧ V2.courseMap e = Main2.courseMap st)
  ∧ (∀ st, Main1.reachable st →
     ∃ e, V1.reachable e ∧ V1.bst e = Main1.bst st).
Proof.
  split.
  - induction 1 as [|fs read cin st st' Hr (e & He & Hb & Hm) Hstep].
    + exists V2.Env_new. split_and!; [constructor|done|done].
    + unfold Main2.loop_body in Hstep.
      destruct read as [choice|]; cycle 1.
      { injection Hstep as <-. by exists e. }
      destruct (choice =? 1)%Z.
      { destruct (getline _ _ _) as [cin1 filename1]. injection Hstep as <-.
        simpl.
        set (f := if filename1 is EmptyString then defaultFile else filename1).
        exists (V2.LoadCourses fs f e). split; [by constructor|].
        by apply LoadCourses_same_indexes. }
      destruct (choice =? 2)%Z.
      { simpl in Hstep. destruct (Main2.dataLoaded st);
          injection Hstep as <-; by exists e. }
      destruct (choice =? 3)%Z.
      { simpl in Hstep. destruct (Main2.dataLoaded st); simpl in Hstep.
        - destruct (getline _ _ _). injection Hstep as <-. by exists e.
        - injection Hstep as <-. by exists e. }
      destruct (choice =? 9)%Z; [done|].
      injection Hstep as <-. by exists e.
  - induction 1 as [|fs read cin st st' Hr (e & He & Hb) Hstep].
    + exists V1.Env_new. split; [constructor|done].
    + unfold Main1.loop_body in Hstep.
      destruct read as [choice|]; cycle 1.
      { injection Hstep as <-. by exists e. }
      destruct (choice =? 1)%Z.
      { destruct (getline _ _ _) as [cin1 filename1].
        destruct filename1 as [|a filename1]; injection Hstep as <-; simpl.
        - exists (V1.LoadCourses fs defaultFile e). split; [by constructor|].
          by apply LoadCourses_same_tree_V1.
        - exists (V1.LoadCourses fs (String a filename1) e).
          split; [by constructor|]. by apply LoadCourses_same_tree_V1. }
      destruct (choice =? 2)%Z.
      { injection Hstep as <-. by exists e. }
      destruct (choice =? 3)%Z.
      { simpl in Hstep. destruct (getline _ _ _). injection Hstep as <-.
        by exists e. }
      destruct (choice =? 9)%Z; [done|].
      injection Hstep as <-. by exists e.
Qed.

(** X12. The menu looks a course up under what was typed with its letters
    a to z turned into capitals. What was typed in capitals is looked up as
    it is, and no number that holds one of the letters a to z is ever
    looked up: a course stored under such a number cannot be found from
    the menu. *)
Theorem menu_lookup_is_upper_case :
  (∀ fs cin st, Main2.dataLoaded st = true →
     ∃ st', Main2.loop_body fs (Some 3%Z) cin st = Main2.Continue st'
       ∧ Main2.courseInput st'
         = transform_toupper (getline cin (Main2.courseInput st) newline).2
       ∧ Main2.cout st'
         = Main2.cout st ++ Main2.menu
           ++ [Said "What course do you want to know about? "]
           ++ (Core <$> V2.PrintCourseDetails (Main2.courseInput st')
                          (Main2.courseMap st)))
  ∧ (∀ fs cin st,
     ∃ st', Main1.loop_body fs (Some 3%Z) cin st = Main1.Continue st'
       ∧ Main1.courseInput st'
         = transform_toupper (getline cin (Main1.courseInput st) newline).2
       ∧ Main1.cout st'
         = Main1.cout st ++ Main1.menu
           ++ [Said "What course do you want to know about? "]
           ++ (Core <$> V1.PrintCourse (Main1.bst st) (Main1.courseInput st')))
  ∧ (∀ typed, has_lower (transform_toupper typed) = false)
  ∧ (∀ typed, has_lower typed = false → transform_toupper typed = typed)
  ∧ (∀ typed number, has_lower number = true → transform_toupper typed ≠ number).
Proof.
  split_and!.
  - intros fs cin st Hd. unfold Main2.loop_body. simpl. rewrite Hd. simpl.
    destruct (getline cin (Main2.courseInput st) newline) as [cin1 typed].
    eexists. split; [done|]. simpl. split; [done|].
    by rewrite <- !(assoc_L (++)).
  - intros fs cin st. unfold Main1.loop_body. simpl.
    destruct (getline cin (Main1.courseInput st) newline) as [cin1 typed].
    eexists. split; [done|]. simpl. split; [done|].
    by rewrite <- !(assoc_L (++)).
  - apply transform_toupper_not_lower.
  - apply transform_toupper_id.
  - intros typed number Hl E. rewrite <- E in Hl.
    by rewrite transform_toupper_not_lower in Hl.
Qed.

(** ** The further properties at sample inputs *)

Lemma getline_loop_reads_the_parts_sample :
  getline_loop (stream_of (unsplit comma ["CS200"; EmptyString; "CS100"]))
    EmptyString comma record_piece []
  = ["CS200"; EmptyString; "CS100"].
Proof.
  apply (proj2 (proj2 (proj2
           (getline_loop_reads_the_parts comma "CS200,,CS100" EmptyString)))).
  repeat constructor.
Defined.

Lemma listing_and_lookup_agree_sample :
  V2.PrintCourseDetails "CS100"
    (V2.courseMap (V2.LoadCourses sample_fs "courses.csv" V2.Env_new))
  = match last (with_number "CS100"
                  (courses (V2.root (V2.bst
                     (V2.LoadCourses sample_fs "courses.csv" V2.Env_new))))) with
    | Some c => details c
    | None => [CourseNotFound]
    end
  ∧ V1.PrintCourse (V1.bst (V1.LoadCourses sample_fs "courses.csv" V1.Env_new))
      "CS100"
    = match head (with_number "CS100"
                    (courses (V1.root (V1.bst
                       (V1.LoadCourses sample_fs "courses.csv" V1.Env_new))))) with
      | Some c => details c
      | None => [CourseNotFound]
      end.
Proof.
  split.
  - exact (proj1 listing_and_lookup_agree _ "CS100"
             (V2.reachable_load sample_fs "courses.csv" _ V2.reachable_new)).
  - exact (proj2 listing_and_lookup_agree _ "CS100"
             (V1.reachable_load sample_fs "courses.csv" _ V1.reachable_new)).
Defined.

Lemma load_adds_to_the_catalog_sample :
  courses (V2.root (V2.bst (V2.LoadCourses sample_fs "courses.csv" V2.Env_new)))
  ≡ₚ courses (V2.root (V2.bst V2.Env_new))
     ++ (V2.parse_line <$> kept_lines sample_csv).
Proof.
  exact (proj1 (load_adds_to_the_catalog sample_fs "courses.csv" sample_csv
                  V2.Env_new V1.Env_new eq_refl I I)).
Defined.

Lemma reload_same_file_sample :
  V2.courseMap (V2.LoadCourses sample_fs "courses.csv"
                  (V2.LoadCourses sample_fs "courses.csv" V2.Env_new))
  = V2.courseMap (V2.LoadCourses sample_fs "courses.csv" V2.Env_new).
Proof.
  exact (proj1 (reload_same_file sample_fs "courses.csv" sample_csv
                  V2.Env_new eq_refl)).
Defined.

Lemma sample_courses_sorted :
  StronglySorted number_le [intro_first; intro_second; data_structures].
Proof. repeat constructor. Qed.

Lemma sorted_input_gives_a_chain_sample :
  right_chain (V2.root (fold_left V2.Insert
                 [intro_first; intro_second; data_structures] V2.CourseBST_new))
  ∧ courses (V2.root (fold_left V2.Insert
               [intro_first; intro_second; data_structures] V2.CourseBST_new))
    = [intro_first; intro_second; data_structures]
  ∧ height (V2.root (fold_left V2.Insert
              [intro_first; intro_second; data_structures] V2.CourseBST_new))
    = length [intro_first; intro_second; data_structures].
Proof.
  exact (proj2 (proj2 (sorted_input_gives_a_chain
                         [intro_first; intro_second; data_structures]))
           sample_courses_sorted).
Defined.

Lemma stored_fields_are_clean_sample :
  Forall clean_course
    (courses (V2.root (V2.bst (V2.LoadCourses sample_fs "courses.csv" V2.Env_new))))
  ∧ Forall comma_free_course
      (courses (V1.root (V1.bst (V1.LoadCourses sample_fs "courses.csv" V1.Env_new)))).
Proof.
  split.
  - exact (proj1 (proj1 stored_fields_are_clean _
             (V2.reachable_load sample_fs "courses.csv" _ V2.reachable_new))).
  - exact (proj2 stored_fields_are_clean _
             (V1.reachable_load sample_fs "courses.csv" _ V1.reachable_new)).
Defined.

Lemma one_space_each_side_is_stripped_sample :
  V1.strip_token (pad true +:+ "CS100" +:+ pad true) = "CS100"
  ∧ V2.strip_token (pad true +:+ "CS100" +:+ pad true) = "CS100".
Proof.
  apply (one_space_each_side_is_stripped "CS100" true true); discriminate.
Defined.

Lemma sample_courses_well_formed :
  Forall well_formed [data_structures; intro_first].
Proof.
  repeat constructor; try done; try (intros [=]).
Qed.

Lemma written_courses_are_read_back_sample :
  V2.bst (V2.LoadCourses
            (only_file (unsplit newline (format_course <$> [data_structures; intro_first])))
            "courses.csv" V2.Env_new)
  = fold_left V2.Insert [data_structures; intro_first] V2.CourseBST_new.
Proof.
  exact (proj1 (proj2 (written_courses_are_read_back
           (only_file (unsplit newline (format_course <$> [data_structures; intro_first])))
           "courses.csv" [data_structures; intro_first]
           sample_courses_well_formed eq_refl))).
Defined.

Lemma dataLoaded_gate_sample :
  (Main2.bst Main2.start = V2.CourseBST_new
   ∧ Main2.courseMap Main2.start = ∅
   ∧ Forall (λ x, ∀ o, x ≠ Core o) (Main2.cout Main2.start))
  ∧ Main2.loop_body sample_fs (Some 3%Z) (stream_of "CS100") Main2.start
    = Main2.Continue (Main2.say Main2.not_loaded (Main2.say Main2.menu Main2.start)).
Proof.
  destruct dataLoaded_gate as (Ha & _ & _ & Hd).
  split.
  - exact (Ha Main2.start Main2.reachable_start eq_refl).
  - exact (proj2 (Hd sample_fs (stream_of "CS100") Main2.start eq_refl)).
Defined.

Lemma menu_keeps_a_loaded_catalog_sample :
  ∃ e, V2.reachable e
       ∧ V2.bst e = Main2.bst Main2.start
       ∧ V2.courseMap e = Main2.courseMap Main2.start.
Proof.
  exact (proj1 menu_keeps_a_loaded_catalog Main2.start Main2.reachable_start).
Defined.

Lemma menu_lookup_is_upper_case_sample :
  (∃ st', Main2.loop_body sample_fs (Some 3%Z) (stream_of "cs100") loaded_nothing
          = Main2.Continue st'
     ∧ Main2.courseInput st'
       = transform_toupper
           (getline (stream_of "cs100") (Main2.courseInput loaded_nothing) newline).2
     ∧ Main2.cout st'
       = Main2.cout loaded_nothing ++ Main2.menu
         ++ [Said "What course do you want to know about? "]
         ++ (Core <$> V2.PrintCourseDetails (Main2.courseInput st')
                        (Main2.courseMap loaded_nothing)))
  ∧ transform_toupper "CS100" = "CS100"
  ∧ transform_toupper "CS100" ≠ "cs100".
Proof.
  destruct menu_lookup_is_upper_case as (H2 & _ & _ & Hid & Hne).
  split; [exact (H2 sample_fs (stream_of "cs100") loaded_nothing eq_refl)|].
  split; [exact (Hid "CS100" eq_refl)|exact (Hne "CS100" "cs100" eq_refl)].
Defined.
